(** * msckf_mono: the ROS interface (src/ros_interface.cpp)

  A shallow embedding of [msckf_mono::RosInterface]: the parameter
  loading routine, the two sensor callbacks and the set-up helpers,
  followed by the properties of the inertial buffer, of the forwarding to
  the tracker and of the derived parameter bundles.

  The object is a record of its data members; a member function is a
  function from the record to the new record together with the list of
  calls it makes on its collaborators (tracker, estimator, transport, log),
  in program order. *)

From Stdlib Require Import ZArith QArith Qround Lia.
From stdpp Require Import base option list strings gmap.

Set Default Proof Using "Type".
Set Warnings "-register-all".

(** ** Machine numbers

  The program computes with C++ [float] and [double].  Their arithmetic is
  kept abstract: every definition and theorem below is parametric in the
  two carriers and in the operations the source applies to them, so each
  statement holds for the IEEE-754 interpretation as for any other.
  [Exact] further down interprets both carriers by the rationals and is
  used to evaluate the program on concrete inputs. *)

Class Floats := {
  float : Type;
  double : Type;
  (** [(float)d], also implicit in every assignment of a double to a float *)
  float_of_double : double -> float;
  (** an [int] used where a double, resp. a float, is expected *)
  double_of_int : Z -> double;
  float_of_int : Z -> float;
  (** a decimal literal such as [0.05] passed where a float is expected *)
  float_lit : Q -> float;
  (** an XML-RPC double read into an [int] parameter *)
  int_of_double : double -> Z;
  (** [x - y] and [x > y] on doubles *)
  dsub : double -> double -> double;
  dgt : double -> double -> bool;
  (** [x + y], [x * y], [x / y] on floats *)
  fadd : float -> float -> float;
  fmul : float -> float -> float;
  fdiv : float -> float -> float;
  (** [pow(x, 2)] stored in a float *)
  fpow2 : float -> float;
}.

(** The order of the time stamps.  [ros::Time::toSec] yields finite,
  non-negative doubles, on which [>] is the strict part of a total order;
  this is the one consequence the buffer needs: above [t] stays above [t]
  when moving to a stamp that is not smaller. *)
Class DoubleOrder `{Floats} := {
  dgt_upward : forall x y t : double,
  dgt x t = true -> dgt x y = false -> dgt y t = true
}.

(** ** Eigen vectors and matrices *)

Section Linear.
Context `{Floats}.

Definition Vector3 : Type := float * float * float.

(** a 3x3 matrix, row by row *)
Definition Matrix3 : Type := Vector3 * Vector3 * Vector3.

(** [Matrix4<float>]: the coefficient at row [i], column [j] *)
Definition Matrix4 : Type := nat -> nat -> float.

Definition Matrix4_set (m : Matrix4) (i j : nat) (x : float) : Matrix4 :=
  fun i' j' => if (Nat.eqb i i' && Nat.eqb j j')%bool then x else m i' j'.

(** [m.block<3,3>(0,0)] and [m.block<3,1>(0,3)] *)
Definition block33 (m : Matrix4) : Matrix3 :=
  ((m 0 0, m 0 1, m 0 2),
   (m 1 0, m 1 1, m 1 2),
   (m 2 0, m 2 1, m 2 2))%nat.

Definition block31 (m : Matrix4) : Vector3 :=
  (m 0 3, m 1 3, m 2 3)%nat.

Definition transpose (m : Matrix3) : Matrix3 :=
  match m with
  | ((a00, a01, a02), (a10, a11, a12), (a20, a21, a22)) =>
      ((a00, a10, a20), (a01, a11, a21), (a02, a12, a22))
  end.

Definition dot (r v : Vector3) : float :=
  match r, v with
  | (r0, r1, r2), (v0, v1, v2) =>
      fadd (fadd (fmul r0 v0) (fmul r1 v1)) (fmul r2 v2)
  end.

(** [m * v] *)
Definition mul_vec (m : Matrix3) (v : Vector3) : Vector3 :=
  match m with
  | (r0, r1, r2) => (dot r0 v, dot r1 v, dot r2 v)
  end.

(** [cv::Mat::eye(3,3,CV_32F)] *)
Definition eye3 : Matrix3 :=
  let o := float_of_int 0 in
  let i := float_of_int 1 in
  ((i, o, o), (o, i, o), (o, o, i)).

(** [v.asDiagonal()]: a diagonal matrix, given by its diagonal *)
Definition DiagonalMatrix : Type := list float.
Definition asDiagonal (v : list float) : DiagonalMatrix := v.
End Linear.

(** ** The parameter server

  [nh_] gives access to a store from names to XML-RPC values. *)

Section Params.
Context `{Floats}.

Inductive XmlRpcValue : Type :=
| TypeInvalid
| TypeBoolean (b : bool)
| TypeInt (i : Z)
| TypeDouble (d : double)
| TypeString (s : string)
| TypeArray (l : list XmlRpcValue).

Definition NodeHandle : Type := gmap string XmlRpcValue.

(** [nh.getParam(key, v)] at the types the program uses: [Some x] when the
    call returns true and stores [x], [None] when it returns false (the
    name is absent, or its value has another type); a call that returns
    false is taken to leave [v] as it was. *)
Definition getParam_string (nh : NodeHandle) (key : string) : option string :=
  match nh !! key with
  | Some (TypeString s) => Some s
  | _ => None
  end.

Definition getParam_double (nh : NodeHandle) (key : string) : option double :=
  match nh !! key with
  | Some (TypeDouble d) => Some d
  | Some (TypeInt i) => Some (double_of_int i)
  | _ => None
  end.

Definition getParam_float (nh : NodeHandle) (key : string) : option float :=
  float_of_double <$> getParam_double nh key.

Definition getParam_int (nh : NodeHandle) (key : string) : option Z :=
  match nh !! key with
  | Some (TypeInt i) => Some i
  | Some (TypeDouble d) => Some (int_of_double d)
  | _ => None
  end.

Definition xml_cast_float (v : XmlRpcValue) : option float :=
  match v with
  | TypeDouble d => Some (float_of_double d)
  | TypeInt i => Some (float_of_int i)
  | TypeBoolean b => Some (float_of_int (if b then 1 else 0))
  | _ => None
  end.

Definition getParam_floats (nh : NodeHandle) (key : string) : option (list float) :=
  match nh !! key with
  | Some (TypeArray l) => mapM xml_cast_float l
  | _ => None
  end.

Definition getParam_xml (nh : NodeHandle) (key : string) : option XmlRpcValue :=
  nh !! key.

(** [nh.param<T>(key, v, d)]: the stored value, [d] when there is none *)
Definition param_float (nh : NodeHandle) (key : string) (d : float) : float :=
  default d (getParam_float nh key).

Definition param_int (nh : NodeHandle) (key : string) (d : Z) : Z :=
  default d (getParam_int nh key).
End Params.

(** ** OpenCV matrices

    [K_] is a 3x3 [cv::Mat] of floats, [dist_coeffs_] a column of floats. *)

Section CvMat.
Context `{Floats}.

Definition Vector3_set (v : Vector3) (j : nat) (x : float) : Vector3 :=
  match v, j with
  | (v0, v1, v2), 0%nat => (x, v1, v2)
  | (v0, v1, v2), 1%nat => (v0, x, v2)
  | (v0, v1, v2), 2%nat => (v0, v1, x)
  | _, _ => v
  end.

Definition Vector3_at (v : Vector3) (j : nat) : float :=
  match v, j with
  | (v0, v1, v2), 0%nat => v0
  | (v0, v1, v2), 1%nat => v1
  | (v0, v1, v2), _ => v2
  end.

(** [m.at<float>(i,j) = x] *)
Definition Mat_set (m : Matrix3) (i j : nat) (x : float) : Matrix3 :=
  match m, i with
  | (r0, r1, r2), 0%nat => (Vector3_set r0 j x, r1, r2)
  | (r0, r1, r2), 1%nat => (r0, Vector3_set r1 j x, r2)
  | (r0, r1, r2), 2%nat => (r0, r1, Vector3_set r2 j x)
  | _, _ => m
  end.

(** [m.at<float>(i,j)] *)
Definition Mat_at (m : Matrix3) (i j : nat) : float :=
  match m, i with
  | (r0, r1, r2), 0%nat => Vector3_at r0 j
  | (r0, r1, r2), 1%nat => Vector3_at r1 j
  | (r0, r1, r2), _ => Vector3_at r2 j
  end.

(** [cv::Mat::zeros(n,1,CV_32F)] *)
Definition zeros (n : nat) : list float := replicate n (float_of_int 0).
End CvMat.

(** ** Collaborators

    What the program receives from the transport, the image decoder and
    Eigen, and the types it only passes on. *)

Class External `{Floats} := {
  (** [ros::Time] and its [toSec()] *)
  Time : Type;
  toSec : Time -> double;
  (** [cv::Mat] images *)
  Image : Type;
  (** [sensor_msgs::Image]: its header stamp, and the outcome of
      [cv_bridge::toCvCopy(msg, MONO8)]: the decoded image, or the [what()]
      of the [cv_bridge::Exception] it throws *)
  ImageMsg : Type;
  image_stamp : ImageMsg -> Time;
  toCvCopy_MONO8 : ImageMsg -> string + Image;
  (** [Quaternion<float>(R)] *)
  Quaternion : Type;
  Quaternion_of_Matrix3 : Matrix3 -> Quaternion;
  (** [imuState<float>] *)
  imuState : Type;
}.

(** ** The data of the program *)

Section Data.
Context `{External}.

(** [sensor_msgs::Imu], the fields the program reads *)
Record ImuMsg := {
  imu_stamp : Time;
  linear_acceleration : double * double * double;
  angular_velocity : double * double * double;
}.

Record imuReading := {
  a : Vector3;
  omega : Vector3;
  dT : float;
}.

Record Camera := {
  c_u : float;
  c_v : float;
  f_u : float;
  f_v : float;
  q_CI : Quaternion;
  p_C_I : Vector3;
}.

Record noiseParams := {
  initial_imu_covar : DiagonalMatrix;
  Q_imu : DiagonalMatrix;
  u_var_prime : float;
  v_var_prime : float;
}.

Record MSCKFParams := {
  max_gn_cost_norm : float;
  translation_threshold : float;
  min_rcond : float;
  redundancy_angle_thresh : float;
  redundancy_distance_thresh : float;
  max_track_length : Z;
  min_track_length : Z;
  max_cam_states : Z;
}.

(** The data members of [RosInterface] that the source file uses.  The
    tracker and the estimator behind [track_handler_] and [msckf_] are not
    part of the record: what the program does to them is in the call lists. *)
Record RosInterface := {
  nh_ : NodeHandle;
  is_calibrating_imu_ : bool;
  is_first_imu_ : bool;
  prev_imu_time_ : double;
  imu_queue_ : list (double * imuReading);
  camera_model_ : string;
  K_ : Matrix3;
  distortion_model_ : string;
  dist_coeffs_ : list float;
  subscribe_topic_ : string;
  R_cam_imu_ : Matrix3;
  p_cam_imu_ : Vector3;
  n_grid_rows_ : Z;
  n_grid_cols_ : Z;
  ransac_threshold_ : float;
  camera_ : Camera;
  noise_params_ : noiseParams;
  msckf_params_ : MSCKFParams;
  init_imu_state_ : imuState;
}.

(** An item written to a log stream *)
Inductive LogItem :=
| Ls (s : string)
| Ln (n : nat)
| Lf (x : float)
| Lm (m : Matrix4).

(** The calls the program makes on its collaborators *)
Inductive Call :=
| TrackHandler_new (K : Matrix3) (dist_coeffs : list float) (distortion_model : string)
| set_grid_size (rows cols : Z)
| set_ransac_threshold (thr : float)
| add_gyro_reading (gyro_measurement : Vector3)
| set_current_image (img : Image) (time : double)
| tracked_features
| new_features
| get_track_image
| MSCKF_new
| MSCKF_initialize (camera : Camera) (noise_params : noiseParams)
    (msckf_params : MSCKFParams) (imu_state : imuState)
| it_subscribe (topic : string) (queue_size : Z)
| it_advertise (topic : string) (queue_size : Z)
| nh_subscribe (topic : string) (queue_size : Z)
| track_image_publish (frame_id : string) (stamp : Time) (img : Image)
| ROS_ERROR (msg : string)
| ROS_INFO_STREAM (items : list LogItem).

(** What the collaborators answer during one image callback: the sizes of
    the two feature vectors the tracker fills, the number of subscribers of
    the track image and the image the tracker draws. *)
Record Answers := {
  cur_features_size : nat;
  new_features_size : nat;
  NumSubscribers : Z;
  track_image : Image;
}.

(** Failures of a run: a failed [ROS_ASSERT], an index outside a
    [std::vector], an index outside an Eigen or OpenCV matrix. *)
Inductive Failure :=
| ROS_ASSERT_failed
| vector_out_of_range
| matrix_out_of_range.

(** Member updates *)
Definition set_first_imu (t : double) (s : RosInterface) : RosInterface :=
  {| nh_ := nh_ s;
     is_calibrating_imu_ := is_calibrating_imu_ s;
     is_first_imu_ := false;
     prev_imu_time_ := t;
     imu_queue_ := imu_queue_ s;
     camera_model_ := camera_model_ s;
     K_ := K_ s;
     distortion_model_ := distortion_model_ s;
     dist_coeffs_ := dist_coeffs_ s;
     subscribe_topic_ := subscribe_topic_ s;
     R_cam_imu_ := R_cam_imu_ s;
     p_cam_imu_ := p_cam_imu_ s;
     n_grid_rows_ := n_grid_rows_ s;
     n_grid_cols_ := n_grid_cols_ s;
     ransac_threshold_ := ransac_threshold_ s;
     camera_ := camera_ s;
     noise_params_ := noise_params_ s;
     msckf_params_ := msckf_params_ s;
     init_imu_state_ := init_imu_state_ s |}.

Definition set_imu_queue (q : list (double * imuReading)) (s : RosInterface)
  : RosInterface :=
  {| nh_ := nh_ s;
     is_calibrating_imu_ := is_calibrating_imu_ s;
     is_first_imu_ := is_first_imu_ s;
     prev_imu_time_ := prev_imu_time_ s;
     imu_queue_ := q;
     camera_model_ := camera_model_ s;
     K_ := K_ s;
     distortion_model_ := distortion_model_ s;
     dist_coeffs_ := dist_coeffs_ s;
     subscribe_topic_ := subscribe_topic_ s;
     R_cam_imu_ := R_cam_imu_ s;
     p_cam_imu_ := p_cam_imu_ s;
     n_grid_rows_ := n_grid_rows_ s;
     n_grid_cols_ := n_grid_cols_ s;
     ransac_threshold_ := ransac_threshold_ s;
     camera_ := camera_ s;
     noise_params_ := noise_params_ s;
     msckf_params_ := msckf_params_ s;
     init_imu_state_ := init_imu_state_ s |}.

Definition set_nh_calibrating (nh : NodeHandle) (b : bool) (s : RosInterface)
  : RosInterface :=
  {| nh_ := nh;
     is_calibrating_imu_ := b;
     is_first_imu_ := is_first_imu_ s;
     prev_imu_time_ := prev_imu_time_ s;
     imu_queue_ := imu_queue_ s;
     camera_model_ := camera_model_ s;
     K_ := K_ s;
     distortion_model_ := distortion_model_ s;
     dist_coeffs_ := dist_coeffs_ s;
     subscribe_topic_ := subscribe_topic_ s;
     R_cam_imu_ := R_cam_imu_ s;
     p_cam_imu_ := p_cam_imu_ s;
     n_grid_rows_ := n_grid_rows_ s;
     n_grid_cols_ := n_grid_cols_ s;
     ransac_threshold_ := ransac_threshold_ s;
     camera_ := camera_ s;
     noise_params_ := noise_params_ s;
     msckf_params_ := msckf_params_ s;
     init_imu_state_ := init_imu_state_ s |}.
End Data.

(** ** The program *)

Section Program.
Context `{External}.
Local Open Scope string_scope.
Local Open Scope list_scope.

(** *** [imuCallback] *)

(** the reading built from the message [imu] arriving at [cur_imu_time] *)
Definition current_imu (imu : ImuMsg) (cur_imu_time prev_imu_time : double)
  : imuReading :=
  let '(ax, ay, az) := linear_acceleration imu in
  let '(wx, wy, wz) := angular_velocity imu in
  {| a := (float_of_double ax, float_of_double ay, float_of_double az);
     omega := (float_of_double wx, float_of_double wy, float_of_double wz);
     dT := float_of_double (dsub cur_imu_time prev_imu_time) |}.

Definition imuCallback (imu : ImuMsg) (s : RosInterface) : RosInterface :=
  let cur_imu_time := toSec (imu_stamp imu) in
  if is_first_imu_ s then
    set_first_imu cur_imu_time s
  else
    set_imu_queue
      (imu_queue_ s
       ++ [(cur_imu_time, current_imu imu cur_imu_time (prev_imu_time_ s))]) s.

(** *** [imageCallback] *)

(** [std::find_if(l.begin(), l.end(), p)], as the distance from [l.begin()] *)
Fixpoint find_if {A} (p : A -> bool) (l : list A) : nat :=
  match l with
  | [] => 0
  | x :: l' => if p x then 0 else S (find_if p l')
  end.

(** the first imu reading that belongs to the next image *)
Definition frame_end (imu_queue : list (double * imuReading))
    (cur_image_time : double) : nat :=
  find_if (fun x => dgt (fst x) cur_image_time) imu_queue.

(** [std::transform(begin, frame_end, back_inserter(imu_since_prev_img), get<1>)] *)
Definition imu_since_prev_img (imu_queue : list (double * imuReading))
    (cur_image_time : double) : list imuReading :=
  map snd (take (frame_end imu_queue cur_image_time) imu_queue).

(** [imu_queue_.erase(imu_queue_.begin(), frame_end)] *)
Definition erase_to_frame_end (imu_queue : list (double * imuReading))
    (cur_image_time : double) : list (double * imuReading) :=
  drop (frame_end imu_queue cur_image_time) imu_queue.

Definition forward_gyro (R_cam_imu : Matrix3) (reading : imuReading) : Call :=
  let gyro_measurement := mul_vec (transpose R_cam_imu) (omega reading) in
  add_gyro_reading gyro_measurement.

Definition publish_extra (publish_time : Time) (ans : Answers) : list Call :=
  if (0 <? NumSubscribers ans)%Z then
    [get_track_image; track_image_publish "cam0" publish_time (track_image ans)]
  else [].

Definition imageCallback (msg : ImageMsg) (ans : Answers) (s : RosInterface)
  : RosInterface * list Call :=
  let cur_image_time := toSec (image_stamp msg) in
  match toCvCopy_MONO8 msg with
  | inl what =>
      (s, [ROS_ERROR ("cv_bridge exception: " +:+ what)])
  | inr cv_ptr =>
      let readings := imu_since_prev_img (imu_queue_ s) cur_image_time in
      let s' := set_imu_queue (erase_to_frame_end (imu_queue_ s) cur_image_time) s in
      (s',
       map (forward_gyro (R_cam_imu_ s)) readings
       ++ [ROS_INFO_STREAM [Ln (length readings); Ls " imu readings in queue"];
           set_current_image cv_ptr cur_image_time;
           tracked_features;
           new_features;
           ROS_INFO_STREAM [Ls "Feature counts [tracked: "; Ln (cur_features_size ans);
                            Ls ",  new: "; Ln (new_features_size ans); Ls "]"]]
       ++ publish_extra (image_stamp msg) ans)
  end.

(** *** [setup_track_handler] and [setup_msckf] *)

Definition setup_track_handler (s : RosInterface) : list Call :=
  [TrackHandler_new (K_ s) (dist_coeffs_ s) (distortion_model_ s);
   set_grid_size (n_grid_rows_ s) (n_grid_cols_ s);
   set_ransac_threshold (ransac_threshold_ s)].

Definition setup_msckf (s : RosInterface) : list Call :=
  [MSCKF_new;
   MSCKF_initialize (camera_ s) (noise_params_ s) (msckf_params_ s)
     (init_imu_state_ s)].

(** *** [load_parameters] *)

(** The inner loop over [ros_param_list[i]], writing [T_cam_imu_(i,j)] *)
Fixpoint read_row (T : Matrix4) (i j : nat) (row : list XmlRpcValue)
  : Failure + Matrix4 :=
  match row with
  | [] => inr T
  | TypeDouble d :: row' =>
      if ((i <? 4)%nat && (j <? 4)%nat)%bool
      then read_row (Matrix4_set T i j (float_of_double d)) i (S j) row'
      else inl matrix_out_of_range
  | _ :: _ => inl ROS_ASSERT_failed
  end.

(** The outer loop over [ros_param_list] *)
Fixpoint read_rows (T : Matrix4) (i : nat) (rows : list XmlRpcValue)
  : Failure + Matrix4 :=
  match rows with
  | [] => inr T
  | TypeArray row :: rows' =>
      match read_row T i 0 row with
      | inl e => inl e
      | inr T' => read_rows T' (S i) rows'
      end
  | _ :: _ => inl ROS_ASSERT_failed
  end.

Definition read_T_cam_imu (T : Matrix4) (ros_param_list : XmlRpcValue)
  : Failure + Matrix4 :=
  match ros_param_list with
  | TypeArray rows => read_rows T 0 rows
  | _ => inl ROS_ASSERT_failed
  end.

(** [kalibr_camera], and [intrinsics] after [getParam]: a vector of four
    zeros when the call stores nothing *)
Definition kalibr_camera (nh : NodeHandle) : string :=
  default "" (getParam_string nh "kalibr_camera_name").

Definition intrinsics (nh : NodeHandle) : list float :=
  default (replicate 4 (float_of_int 0))
    (getParam_floats nh (kalibr_camera nh +:+ "/intrinsics")).

(** [T_cam_imu_0] is the content of the local [T_cam_imu_] at its
    declaration, which gives it no value.  The members that the routine does
    not assign keep the value they have in [s]. *)
Definition load_parameters (T_cam_imu_0 : Matrix4) (s : RosInterface)
  : Failure + (RosInterface * list Call) :=
  let nh := nh_ s in
  let kalibr_camera := kalibr_camera nh in
  let camera_model :=
    default (camera_model_ s) (getParam_string nh (kalibr_camera +:+ "/camera_model")) in
  let intrinsics := intrinsics nh in
  match intrinsics with
  | intrinsics0 :: intrinsics1 :: intrinsics2 :: intrinsics3 :: _ =>
  let K := eye3 in
  let K := Mat_set K 0 0 intrinsics0 in
  let K := Mat_set K 1 1 intrinsics1 in
  let K := Mat_set K 0 2 intrinsics2 in
  let K := Mat_set K 1 2 intrinsics3 in
  let distortion_model :=
    default (distortion_model_ s)
      (getParam_string nh (kalibr_camera +:+ "/distortion_model")) in
  let distortion_coeffs :=
    default (replicate 4 (float_of_int 0))
      (getParam_floats nh (kalibr_camera +:+ "/distortion_coeffs")) in
  match distortion_coeffs with
  | distortion_coeffs0 :: distortion_coeffs1 :: distortion_coeffs2
      :: distortion_coeffs3 :: _ =>
  let dist_coeffs := zeros (length distortion_coeffs) in
  let dist_coeffs := <[0%nat := distortion_coeffs0]> dist_coeffs in
  let dist_coeffs := <[1%nat := distortion_coeffs1]> dist_coeffs in
  let dist_coeffs := <[2%nat := distortion_coeffs2]> dist_coeffs in
  let dist_coeffs := <[3%nat := distortion_coeffs3]> dist_coeffs in
  let subscribe_topic :=
    default (subscribe_topic_ s) (getParam_string nh (kalibr_camera +:+ "/rostopic")) in
  let ros_param_list :=
    default TypeInvalid (getParam_xml nh (kalibr_camera +:+ "/T_cam_imu")) in
  match read_T_cam_imu T_cam_imu_0 ros_param_list with
  | inl e => inl e
  | inr T_cam_imu =>
  let R_cam_imu := block33 T_cam_imu in
  let p_cam_imu := block31 T_cam_imu in
  let n_grid_rows := param_int nh "n_grid_rows" 8 in
  let n_grid_cols := param_int nh "n_grid_cols" 8 in
  (* [float ransac_threshold_;] declares a local of the member's name: the
     parameter is read into the local, the member is not assigned *)
  let ransac_threshold_local := param_float nh "ransac_threshold_" (float_lit 0.000002) in
  (* setup camera parameters *)
  let camera :=
    {| c_u := intrinsics0;
       c_v := intrinsics1;
       f_u := intrinsics2;
       f_v := intrinsics3;
       q_CI := Quaternion_of_Matrix3 R_cam_imu;
       p_C_I := p_cam_imu |} in
  let feature_cov := param_float nh "feature_covariance" (float_of_int 7) in
  let w_var := param_float nh "imu_vars/w_var" (float_lit 1e-5) in
  let dbg_var := param_float nh "imu_vars/dbg_var" (float_lit 3.6733e-5) in
  let a_var := param_float nh "imu_vars/a_var" (float_lit 1e-3) in
  let dba_var := param_float nh "imu_vars/dba_var" (float_lit 7e-4) in
  let Q_imu_vars :=
    [w_var; w_var; w_var; dbg_var; dbg_var; dbg_var;
     a_var; a_var; a_var; dba_var; dba_var; dba_var] in
  let q_var_init := param_float nh "imu_covars/q_var_init" (float_lit 1e-5) in
  let bg_var_init := param_float nh "imu_covars/bg_var_init" (float_lit 1e-2) in
  let v_var_init := param_float nh "imu_covars/v_var_init" (float_lit 1e-2) in
  let ba_var_init := param_float nh "imu_covars/ba_var_init" (float_lit 1e-2) in
  let p_var_init := param_float nh "imu_covars/p_var_init" (float_lit 1e-12) in
  let IMUCovar_vars :=
    [q_var_init; q_var_init; q_var_init; bg_var_init; bg_var_init; bg_var_init;
     v_var_init; v_var_init; v_var_init; ba_var_init; ba_var_init; ba_var_init;
     p_var_init; p_var_init; p_var_init] in
  (* Setup noise parameters *)
  let noise_params :=
    {| initial_imu_covar := asDiagonal IMUCovar_vars;
       Q_imu := asDiagonal Q_imu_vars;
       u_var_prime := fpow2 (fdiv feature_cov (f_u camera));
       v_var_prime := fpow2 (fdiv feature_cov (f_v camera)) |} in
  let max_gn_cost_norm_raw := param_float nh "max_gn_cost_norm" (float_of_int 11) in
  let msckf_params :=
    {| max_gn_cost_norm := fpow2 (fdiv max_gn_cost_norm_raw (f_u camera));
       translation_threshold := param_float nh "translation_threshold" (float_lit 0.05);
       min_rcond := param_float nh "min_rcond" (float_lit 3e-12);
       redundancy_angle_thresh := param_float nh "keyframe_transl_dist" (float_lit 0.005);
       redundancy_distance_thresh := param_float nh "keyframe_rot_dist" (float_lit 0.05);
       max_track_length := param_int nh "max_track_length" 1000;
       min_track_length := param_int nh "min_track_length" 3;
       max_cam_states := param_int nh "max_cam_states" 20 |} in
  inr ({| nh_ := nh;
          is_calibrating_imu_ := is_calibrating_imu_ s;
          is_first_imu_ := is_first_imu_ s;
          prev_imu_time_ := prev_imu_time_ s;
          imu_queue_ := imu_queue_ s;
          camera_model_ := camera_model;
          K_ := K;
          distortion_model_ := distortion_model;
          dist_coeffs_ := dist_coeffs;
          subscribe_topic_ := subscribe_topic;
          R_cam_imu_ := R_cam_imu;
          p_cam_imu_ := p_cam_imu;
          n_grid_rows_ := n_grid_rows;
          n_grid_cols_ := n_grid_cols;
          ransac_threshold_ := ransac_threshold_ s;
          camera_ := camera;
          noise_params_ := noise_params;
          msckf_params_ := msckf_params;
          init_imu_state_ := init_imu_state_ s |},
       [ROS_INFO_STREAM [Ls "Loaded "; Ls kalibr_camera];
        ROS_INFO_STREAM [Ls "-Intrinsics "; Lf intrinsics0; Ls ", "; Lf intrinsics1;
                         Ls ", "; Lf intrinsics2; Ls ", "; Lf intrinsics3];
        ROS_INFO_STREAM [Ls "-Distortion "; Lf distortion_coeffs0; Ls ", ";
                         Lf distortion_coeffs1; Ls ", "; Lf distortion_coeffs2;
                         Ls ", "; Lf distortion_coeffs3];
        ROS_INFO_STREAM [Ls "-Camera topic "; Ls subscribe_topic];
        ROS_INFO_STREAM [Ls "-T_cam_imu "; Lm T_cam_imu]])
  end
  | _ => inl vector_out_of_range
  end
  | _ => inl vector_out_of_range
  end.

(** *** The constructor

    [s0] holds the members as their declarations leave them; the constructor
    stores the node handle, sets [is_calibrating_imu_], loads the parameters,
    sets up the tracker and registers the three topics. *)
Definition RosInterface_new (nh : NodeHandle) (T_cam_imu_0 : Matrix4)
    (s0 : RosInterface) : Failure + (RosInterface * list Call) :=
  let s := set_nh_calibrating nh true s0 in
  match load_parameters T_cam_imu_0 s with
  | inl e => inl e
  | inr (s, loaded) =>
      inr (s,
           loaded
           ++ setup_track_handler s
           ++ [it_subscribe "/rig/left/image_mono" 1;
               it_advertise "/rig/left/image_mono/tracks" 1;
               nh_subscribe "/rig/imu" 10])
  end.
End Program.

(** ** Runs

    The transport delivers inertial messages and images one at a time; a run
    is the list of these arrivals, each image with the answers the
    collaborators give while it is processed. *)

Section Runs.
Context `{External}.

Inductive Event :=
| ImuArrived (imu : ImuMsg)
| ImageArrived (msg : ImageMsg) (ans : Answers).

Definition step (e : Event) (s : RosInterface) : RosInterface * list Call :=
  match e with
  | ImuArrived imu => (imuCallback imu s, [])
  | ImageArrived msg ans => imageCallback msg ans s
  end.

Fixpoint run (evs : list Event) (s : RosInterface) : RosInterface * list Call :=
  match evs with
  | [] => (s, [])
  | e :: evs' =>
      let '(s1, c1) := step e s in
      let '(s2, c2) := run evs' s1 in
      (s2, c1 ++ c2)
  end.

(** The readings an arrival takes out of the buffer: the local
    [imu_since_prev_img] of an image callback that gets past the decoder. *)
Definition drained (e : Event) (s : RosInterface) : list imuReading :=
  match e with
  | ImuArrived _ => []
  | ImageArrived msg _ =>
      match toCvCopy_MONO8 msg with
      | inl _ => []
      | inr _ => imu_since_prev_img (imu_queue_ s) (toSec (image_stamp msg))
      end
  end.

(** The sequences drained by the successive arrivals of a run *)
Fixpoint drains (evs : list Event) (s : RosInterface) : list (list imuReading) :=
  match evs with
  | [] => []
  | e :: evs' => drained e s :: drains evs' (step e s).1
  end.

(** The inertial messages of a run, in arrival order *)
Fixpoint imu_messages (evs : list Event) : list ImuMsg :=
  match evs with
  | [] => []
  | ImuArrived imu :: evs' => imu :: imu_messages evs'
  | ImageArrived _ _ :: evs' => imu_messages evs'
  end.


(** Time stamps in non-decreasing order: no stamp is greater than the next *)
Fixpoint non_decreasing (ts : list double) : bool :=
  match ts with
  | [] => true
  | x :: ts' =>
      match ts' with
      | [] => true
      | y :: _ => negb (dgt x y) && non_decreasing ts'
      end
  end.

(** The number of [initialize] calls on the estimator in a list of calls *)
Fixpoint count_initialize (cs : list Call) : nat :=
  match cs with
  | [] => 0
  | MSCKF_initialize _ _ _ _ :: cs' => S (count_initialize cs')
  | _ :: cs' => count_initialize cs'
  end.
(** The members that only the constructor and [load_parameters] assign *)
Definition configuration (s : RosInterface) :=
  (nh_ s, is_calibrating_imu_ s, camera_model_ s, K_ s, distortion_model_ s,
   dist_coeffs_ s, subscribe_topic_ s, R_cam_imu_ s, p_cam_imu_ s,
   n_grid_rows_ s, n_grid_cols_ s, ransac_threshold_ s, camera_ s,
   noise_params_ s, msckf_params_ s, init_imu_state_ s).

(** The arguments of the [add_gyro_reading] calls in a list of calls *)
Fixpoint gyro_calls (cs : list Call) : list Vector3 :=
  match cs with
  | [] => []
  | add_gyro_reading g :: cs' => g :: gyro_calls cs'
  | _ :: cs' => gyro_calls cs'
  end.

(** The arguments of the [set_current_image] calls in a list of calls *)
Fixpoint frame_calls (cs : list Call) : list (Image * double) :=
  match cs with
  | [] => []
  | set_current_image img t :: cs' => (img, t) :: frame_calls cs'
  | _ :: cs' => frame_calls cs'
  end.

(** The images of a run that decode, each with the seconds of its stamp *)
Fixpoint decoded_frames (evs : list Event) : list (Image * double) :=
  match evs with
  | [] => []
  | ImuArrived _ :: evs' => decoded_frames evs'
  | ImageArrived msg _ :: evs' =>
      match toCvCopy_MONO8 msg with
      | inl _ => decoded_frames evs'
      | inr img => (img, toSec (image_stamp msg)) :: decoded_frames evs'
      end
  end.

(** The buffer entries of all inertial messages of a run but the first, as
    [imuCallback] appends them *)
Definition stamped_after_first (evs : list Event) : list (double * imuReading) :=
  match imu_messages evs with
  | [] => []
  | first :: later =>
      map (fun imu =>
             (toSec (imu_stamp imu),
              current_imu imu (toSec (imu_stamp imu)) (toSec (imu_stamp first))))
        later
  end.

(** [ros_param_list[i][j]], when row [i] is an array and its element [j] a
    double *)
Definition entry (rows : list XmlRpcValue) (i j : nat) : option double :=
  match rows !! i with
  | Some (TypeArray row) =>
      match row !! j with
      | Some (TypeDouble d) => Some d
      | _ => None
      end
  | _ => None
  end.



(** [distortion_coeffs] after [getParam]: a vector of four zeros when the
    call stores nothing *)
Definition distortion_coeffs (nh : NodeHandle) : list float :=
  default (replicate 4 (float_of_int 0))
    (getParam_floats nh (kalibr_camera nh +:+ "/distortion_coeffs")%string).

End Runs.

(** ** Exact arithmetic

    Both carriers are the rationals and every operation is the exact one.
    Time stamps are their own number of seconds, an image is its name, an
    image message is a stamp with the outcome of decoding it. *)

Module Exact.

Definition floats : Floats :=
  {| float := Q;
     double := Q;
     float_of_double := fun d => d;
     double_of_int := inject_Z;
     float_of_int := inject_Z;
     float_lit := fun q => q;
     int_of_double := fun d => Qfloor (Qplus d (Qmake 1 2));
     dsub := Qminus;
     dgt := fun x y => negb (Qle_bool x y);
     fadd := Qplus;
     fmul := Qmult;
     fdiv := Qdiv;
     fpow2 := fun x => Qmult x x |}.

#[local] Existing Instance floats.

Definition external : External :=
  {| Time := Q;
     toSec := fun t => t;
     Image := string;
     ImageMsg := Q * (string + string);
     image_stamp := fst;
     toCvCopy_MONO8 := snd;
     Quaternion := Matrix3;
     Quaternion_of_Matrix3 := fun R => R;
     imuState := unit |}.

#[local] Existing Instance external.
Local Open Scope string_scope.
Local Open Scope list_scope.
Local Open Scope Q_scope.

(** A calibration in the layout of the calibration files: the intrinsics
    are [f_u, f_v, c_u, c_v], the extrinsic transform is a quarter turn
    about the optical axis with a translation. *)
Definition row4 (x0 x1 x2 x3 : Q) : XmlRpcValue :=
  TypeArray [TypeDouble x0; TypeDouble x1; TypeDouble x2; TypeDouble x3].

Definition T_cam_imu : XmlRpcValue :=
  TypeArray [row4 0 (-1) 0 (1 # 10);
             row4 1 0 0 (2 # 10);
             row4 0 0 1 (3 # 10);
             row4 0 0 0 1].

Definition calibration : NodeHandle :=
  {[ "kalibr_camera_name" := TypeString "cam0";
     "cam0/intrinsics" :=
       TypeArray [TypeDouble 300; TypeDouble 300; TypeDouble 320; TypeDouble 240];
     "cam0/distortion_coeffs" :=
       TypeArray [TypeDouble 0; TypeDouble 0; TypeDouble 0; TypeDouble 0];
     "cam0/T_cam_imu" := T_cam_imu ]}.

(** The calibration with tuning constants set by the user *)
Definition tuned : NodeHandle :=
  <["ransac_threshold_" := TypeDouble (1 # 2)]>
  (<["keyframe_transl_dist" := TypeDouble 1]>
  (<["keyframe_rot_dist" := TypeDouble 2]> calibration)).

Definition zero3 : Vector3 := (0, 0, 0).

(** The members before the constructor runs *)
Definition blank : RosInterface :=
  {| nh_ := ∅;
     is_calibrating_imu_ := false;
     is_first_imu_ := true;
     prev_imu_time_ := 0;
     imu_queue_ := [];
     camera_model_ := "";
     K_ := (zero3, zero3, zero3);
     distortion_model_ := "";
     dist_coeffs_ := [];
     subscribe_topic_ := "";
     R_cam_imu_ := (zero3, zero3, zero3);
     p_cam_imu_ := zero3;
     n_grid_rows_ := 0;
     n_grid_cols_ := 0;
     ransac_threshold_ := 0;
     camera_ := {| c_u := 0; c_v := 0; f_u := 0; f_v := 0;
                   q_CI := (zero3, zero3, zero3); p_C_I := zero3 |};
     noise_params_ := {| initial_imu_covar := []; Q_imu := [];
                         u_var_prime := 0; v_var_prime := 0 |};
     msckf_params_ := {| max_gn_cost_norm := 0; translation_threshold := 0;
                         min_rcond := 0; redundancy_angle_thresh := 0;
                         redundancy_distance_thresh := 0; max_track_length := 0;
                         min_track_length := 0; max_cam_states := 0 |};
     init_imu_state_ := tt |}.

Definition T_blank : Matrix4 := fun _ _ => 0.

(** An inertial message stamped [t] turning at rate [w] about the first axis *)
Definition imu_at (t w : Q) : ImuMsg :=
  {| imu_stamp := t;
     linear_acceleration := (0, 0, 981 # 100);
     angular_velocity := (w, 0, 0) |}.

Definition good_image (t : Q) : ImageMsg := (t, inr "frame").
Definition bad_image (t : Q) : ImageMsg := (t, inl "unsupported encoding").

Definition nobody : Answers :=
  {| cur_features_size := 12; new_features_size := 3;
     NumSubscribers := 0; track_image := "tracks" |}.

(** Four inertial messages, then an image between the third and the fourth *)
Definition stream : list Event :=
  [ImuArrived (imu_at 1 1);
   ImuArrived (imu_at (11 # 10) 2);
   ImuArrived (imu_at (12 # 10) 3);
   ImuArrived (imu_at (13 # 10) 4);
   ImageArrived (good_image (125 # 100)) nobody].

(** The object after the first four messages of [stream] *)
Definition buffered : RosInterface := (run (take 4 stream) blank).1.

(** The object when the constructor calls [load_parameters], and the outcome
    of the constructor at the two configurations *)
Definition constructing : RosInterface := set_nh_calibrating calibration true blank.

Definition state_of (r : Failure + (RosInterface * list Call)) : RosInterface :=
  match r with
  | inr (s, _) => s
  | inl _ => blank
  end.

Definition calls_of (r : Failure + (RosInterface * list Call)) : list Call :=
  match r with
  | inr (_, cs) => cs
  | inl _ => []
  end.

Definition succeeded (r : Failure + (RosInterface * list Call)) : bool :=
  match r with
  | inr _ => true
  | inl _ => false
  end.

Definition loaded : RosInterface := state_of (load_parameters T_blank constructing).
Definition loaded_calls : list Call := calls_of (load_parameters T_blank constructing).

Definition constructed : RosInterface :=
  state_of (RosInterface_new calibration T_blank blank).
Definition constructed_calls : list Call :=
  calls_of (RosInterface_new calibration T_blank blank).

Definition constructed_tuned : RosInterface :=
  state_of (RosInterface_new tuned T_blank blank).
Definition constructed_tuned_calls : list Call :=
  calls_of (RosInterface_new tuned T_blank blank).

(** A store that holds the extrinsic transform only, under the empty camera
    name; the calibration with five distortion coefficients; an image
    message with subscribers to the track image *)
Definition bare : NodeHandle := {[ "/T_cam_imu" := T_cam_imu ]}.

Definition five_coeffs : NodeHandle :=
  <["cam0/distortion_coeffs" :=
      TypeArray [TypeDouble (1 # 10); TypeDouble (2 # 10); TypeDouble (3 # 10);
                 TypeDouble (4 # 10); TypeDouble (5 # 10)]]> calibration.

Definition watched : Answers :=
  {| cur_features_size := 12; new_features_size := 3;
     NumSubscribers := 2; track_image := "tracks" |}.

Definition loaded_bare : RosInterface :=
  state_of (load_parameters T_blank (set_nh_calibrating bare true blank)).
Definition loaded_bare_calls : list Call :=
  calls_of (load_parameters T_blank (set_nh_calibrating bare true blank)).

Definition loaded_five : RosInterface :=
  state_of (load_parameters T_blank (set_nh_calibrating five_coeffs true blank)).
Definition loaded_five_calls : list Call :=
  calls_of (load_parameters T_blank (set_nh_calibrating five_coeffs true blank)).

(** The matrix that the loops make of [T_cam_imu] *)
Definition parsed : Matrix4 :=
  match read_T_cam_imu T_blank T_cam_imu with
  | inr T => T
  | inl _ => T_blank
  end.

(** The constructed object after the first four messages of [stream]: its
    [R_cam_imu_] is the quarter turn of [T_cam_imu] *)
Definition turned : RosInterface := (run (take 4 stream) constructed).1.

Lemma order : DoubleOrder.
Proof.
  constructor. intros x y t. cbn.
  rewrite !negb_true_iff, negb_false_iff.
  intros Hxt Hxy. apply Qle_bool_iff in Hxy.
  destruct (Qle_bool y t) eqn:Hyt; [|reflexivity].
  apply Qle_bool_iff in Hyt.
  assert (Qle_bool x t = true) as Hc
    by (apply Qle_bool_iff; eapply Qle_trans; eassumption).
  congruence.
Qed.

End Exact.

(** * Properties *)

(** ** Searching and cutting the buffer *)

Section Buffer.
Context `{External}.

Lemma find_if_false {A} (p : A -> bool) (l : list A) :
  Forall (fun x => p x = false) (take (find_if p l) l).
Proof.
  induction l as [|x l IH]; simpl; [constructor|].
  destruct (p x) eqn:Hp; simpl; [constructor|].
  constructor; assumption.
Qed.

Lemma find_if_true {A} (p : A -> bool) (l : list A) :
  match drop (find_if p l) l with
  | [] => True
  | x :: _ => p x = true
  end.
Proof.
  induction l as [|x l IH]; simpl; [exact I|].
  destruct (p x) eqn:Hp; simpl; assumption.
Qed.

Lemma find_if_nil_all {A} (p : A -> bool) (l : list A) :
  Forall (fun x => p x = false) l -> find_if p l = length l.
Proof.
  induction 1 as [|x l Hx _ IH]; simpl; [reflexivity|].
  rewrite Hx, IH. reflexivity.
Qed.

Lemma non_decreasing_tail (x : double) (ts : list double) :
  non_decreasing (x :: ts) = true -> non_decreasing ts = true.
Proof.
  destruct ts as [|y ts]; [reflexivity|].
  cbn [non_decreasing]. intros Hs.
  apply andb_true_iff in Hs. apply Hs.
Qed.

Lemma non_decreasing_drop (k : nat) (ts : list double) :
  non_decreasing ts = true -> non_decreasing (drop k ts) = true.
Proof.
  revert ts. induction k as [|k IH]; intros ts Hs; [rewrite drop_0; exact Hs|].
  destruct ts as [|x ts]; [reflexivity|].
  simpl. apply IH. eapply non_decreasing_tail. exact Hs.
Qed.

(** In a non-decreasing buffer every stamp behind one above [t] is above [t] *)
Lemma non_decreasing_above `{!DoubleOrder} (t x : double) (ts : list double) :
  dgt x t = true -> non_decreasing (x :: ts) = true ->
  Forall (fun y => dgt y t = true) (x :: ts).
Proof.
  revert x. induction ts as [|y ts IH]; intros x Hx Hs.
  - constructor; [assumption|constructor].
  - constructor; [assumption|].
    cbn [non_decreasing] in Hs. apply andb_true_iff in Hs as [Hxy Hs].
    apply negb_true_iff in Hxy.
    apply IH; [|exact Hs].
    eapply dgt_upward; eassumption.
Qed.

Lemma frame_end_behind `{!DoubleOrder} (q : list (double * imuReading)) (t : double) :
  non_decreasing (map fst q) = true ->
  Forall (fun x => dgt x.1 t = true) (erase_to_frame_end q t).
Proof.
  intros Hs. unfold erase_to_frame_end.
  pose proof (find_if_true (fun x => dgt (fst x) t) q) as Hhd.
  fold (frame_end q t) in Hhd.
  pose proof (non_decreasing_drop (frame_end q t) _ Hs) as Hd.
  rewrite skipn_map in Hd.
  destruct (drop (frame_end q t) q) as [|x r]; [constructor|].
  apply (Forall_map fst (fun y => dgt y t = true)).
  apply non_decreasing_above; assumption.
Qed.

Lemma filter_split {A} (P : A -> Prop) `{!forall x, Decision (P x)} (l1 l2 : list A) :
  Forall (fun x => ~ P x) l1 -> Forall P l2 ->
  filter P (l1 ++ l2) = l2.
Proof.
  intros Hl1 Hl2. rewrite filter_app.
  assert (filter P l1 = []) as ->.
  { induction Hl1 as [|x l Hx _ IH]; [reflexivity|].
    rewrite filter_cons_False by assumption. exact IH. }
  induction Hl2 as [|x l Hx _ IH]; [reflexivity|].
  rewrite filter_cons_True by assumption. simpl in *. rewrite IH. reflexivity.
Qed.

Lemma filter_split_front {A} (P : A -> Prop) `{!forall x, Decision (P x)}
    (l1 l2 : list A) :
  Forall P l1 -> Forall (fun x => ~ P x) l2 ->
  filter P (l1 ++ l2) = l1.
Proof.
  intros Hl1 Hl2. rewrite filter_app.
  assert (filter P l2 = []) as ->.
  { induction Hl2 as [|x l Hx _ IH]; [reflexivity|].
    rewrite filter_cons_False by assumption. exact IH. }
  rewrite app_nil_r.
  induction Hl1 as [|x l Hx _ IH]; [reflexivity|].
  rewrite filter_cons_True by assumption. rewrite IH. reflexivity.
Qed.

(** The state after an image that decodes *)
Lemma imageCallback_decoded (msg : ImageMsg) (ans : Answers) (s : RosInterface)
    (img : Image) :
  toCvCopy_MONO8 msg = inr img ->
  imu_queue_ (imageCallback msg ans s).1
  = erase_to_frame_end (imu_queue_ s) (toSec (image_stamp msg)).
Proof. intros Hd. unfold imageCallback. rewrite Hd. reflexivity. Qed.

(** C2: for every buffer [q] with stamps in non-decreasing order and every
    cutoff [t], the buffer splits into a front part and the part that the
    erasure leaves: the readings taken out are those of the front part in
    arrival order, no stamp of the front part exceeds [t], every stamp that
    stays exceeds [t]; the front part consists of exactly the entries of [q]
    with stamp not above [t] and the remainder of exactly those above [t],
    each in the order of [q]; an empty buffer gives no readings and stays
    empty; and this is what the image callback does to the buffer when an
    image stamped [t] decodes. *)
Theorem drain_partition `{Hord : !DoubleOrder} (q : list (double * imuReading))
    (t : double) :
  non_decreasing (map fst q) = true ->
  exists front,
    q = front ++ erase_to_frame_end q t /\
    imu_since_prev_img q t = map snd front /\
    Forall (fun x => dgt x.1 t = false) front /\
    Forall (fun x => dgt x.1 t = true) (erase_to_frame_end q t) /\
    front = filter (fun x => dgt x.1 t = false) q /\
    erase_to_frame_end q t = filter (fun x => dgt x.1 t = true) q /\
    (q = [] -> imu_since_prev_img q t = [] /\ erase_to_frame_end q t = []) /\
    (forall msg ans s img,
       toCvCopy_MONO8 msg = inr img ->
       imu_queue_ s = q ->
       toSec (image_stamp msg) = t ->
       drained (ImageArrived msg ans) s = imu_since_prev_img q t /\
       imu_queue_ (imageCallback msg ans s).1 = erase_to_frame_end q t).
Proof.
  intros Hs.
  pose proof (find_if_false (fun x => dgt (fst x) t) q) as Hfront.
  fold (frame_end q t) in Hfront.
  pose proof (frame_end_behind q t Hs) as Hrest.
  assert (q = take (frame_end q t) q ++ erase_to_frame_end q t) as Hsplit
    by (unfold erase_to_frame_end; symmetry; apply take_drop).
  exists (take (frame_end q t) q).
  split; [exact Hsplit|].
  split; [reflexivity|].
  split; [exact Hfront|].
  split; [exact Hrest|].
  split; [|split; [|split]].
  - remember (take (frame_end q t) q) as front eqn:Efront.
    remember (erase_to_frame_end q t) as rest eqn:Erest.
    rewrite Hsplit. symmetry. apply filter_split_front; [exact Hfront|].
    eapply Forall_impl; [exact Hrest|]. intros x Hx. simpl. rewrite Hx. discriminate.
  - remember (take (frame_end q t) q) as front eqn:Efront.
    remember (erase_to_frame_end q t) as rest eqn:Erest.
    rewrite Hsplit. symmetry. apply filter_split; [|exact Hrest].
    eapply Forall_impl; [exact Hfront|]. intros x Hx. simpl in *. rewrite Hx. discriminate.
  - intros ->. split; reflexivity.
  - intros msg ans s img Hd Hq Ht. subst q t.
    split; [unfold drained; rewrite Hd; reflexivity|].
    apply imageCallback_decoded with (img := img). exact Hd.
Qed.
End Buffer.

Section Buffer_exact.
#[local] Existing Instance Exact.floats.
#[local] Existing Instance Exact.external.

Lemma drain_partition_witness :
  let q := imu_queue_ Exact.buffered in
  let t := 125 # 100 in
  exists front,
    q = front ++ erase_to_frame_end q t /\
    imu_since_prev_img q t = map snd front /\
    Forall (fun x => dgt x.1 t = false) front /\
    Forall (fun x => dgt x.1 t = true) (erase_to_frame_end q t) /\
    front = filter (fun x => dgt x.1 t = false) q /\
    erase_to_frame_end q t = filter (fun x => dgt x.1 t = true) q /\
    (q = [] -> imu_since_prev_img q t = [] /\ erase_to_frame_end q t = []) /\
    (forall msg ans s img,
       toCvCopy_MONO8 msg = inr img ->
       imu_queue_ s = q ->
       toSec (image_stamp msg) = t ->
       drained (ImageArrived msg ans) s = imu_since_prev_img q t /\
       imu_queue_ (imageCallback msg ans s).1 = erase_to_frame_end q t).
Proof.
  apply (drain_partition (Hord := Exact.order)
           (imu_queue_ Exact.buffered) (125 # 100)).
  vm_compute. reflexivity.
Defined.
End Buffer_exact.

(** ** Forwarding to the tracker *)

Section Forwarding.
Context `{External}.

(** C4: when the image decodes, the calls of the image callback start with
    one [add_gyro_reading] per reading taken out of the buffer, in the order
    of the buffer.  With [R_cam_imu_] the matrix of rows [(r00, r01, r02)],
    [(r10, r11, r12)], [(r20, r21, r22)] and [(v0, v1, v2)] the angular
    velocity of the reading, the call carries the product of the transpose
    with the velocity: its component [i] is [r0i * v0 + r1i * v1 + r2i * v2].
    The frame is handed over by [set_current_image] after all of them, with
    the decoded image and the stamp of the message; no later call forwards a
    gyro reading or hands over a frame; with an empty buffer no reading is
    forwarded and the frame is handed over all the same. *)
Theorem gyro_forwarded_before_frame (msg : ImageMsg) (ans : Answers)
    (s : RosInterface) (img : Image) :
  toCvCopy_MONO8 msg = inr img ->
  let t := toSec (image_stamp msg) in
  let readings := imu_since_prev_img (imu_queue_ s) t in
  let '((r00, r01, r02), (r10, r11, r12), (r20, r21, r22)) := R_cam_imu_ s in
  let rotated (r : imuReading) : Vector3 :=
    let '(v0, v1, v2) := omega r in
    (fadd (fadd (fmul r00 v0) (fmul r10 v1)) (fmul r20 v2),
     fadd (fadd (fmul r01 v0) (fmul r11 v1)) (fmul r21 v2),
     fadd (fadd (fmul r02 v0) (fmul r12 v1)) (fmul r22 v2)) in
  exists rest,
    (imageCallback msg ans s).2
    = map (fun r => add_gyro_reading (rotated r)) readings
      ++ ROS_INFO_STREAM [Ln (length readings); Ls " imu readings in queue"]
      :: set_current_image img t :: rest /\
    readings = map snd (take (frame_end (imu_queue_ s) t) (imu_queue_ s)) /\
    length (gyro_calls (imageCallback msg ans s).2) = length readings /\
    (forall g, add_gyro_reading g ∉ rest) /\
    (forall i t', set_current_image i t' ∉ rest) /\
    (imu_queue_ s = [] ->
     (imageCallback msg ans s).2
     = ROS_INFO_STREAM [Ln 0; Ls " imu readings in queue"]
       :: set_current_image img t :: rest).
Proof.
  intros Hd t readings.
  assert (forall c, c ∈ publish_extra (image_stamp msg) ans ->
                    c = get_track_image \/ exists f st i, c = track_image_publish f st i)
    as Hpub.
  { intros c. unfold publish_extra. destruct (0 <? NumSubscribers ans)%Z.
    - rewrite !elem_of_cons. intros [->|[->|Hc]]; [left; reflexivity|right; eauto|].
      inversion Hc.
    - intros Hc. inversion Hc. }
  assert (gyro_calls (publish_extra (image_stamp msg) ans) = []) as Hpg
    by (unfold publish_extra; destruct (0 <? NumSubscribers ans)%Z; reflexivity).
  assert (forall R l, length (gyro_calls (map (forward_gyro R) l)) = length l) as Hlen.
  { intros R l. induction l as [|r l IH]; [reflexivity|].
    cbn [map forward_gyro gyro_calls length]. rewrite IH. reflexivity. }
  assert (forall cs1 cs2, gyro_calls (cs1 ++ cs2) = gyro_calls cs1 ++ gyro_calls cs2)
    as Happ.
  { intros cs1 cs2. induction cs1 as [|c cs1 IH]; [reflexivity|].
    destruct c; cbn [app gyro_calls]; rewrite IH; reflexivity. }
  unfold imageCallback. rewrite Hd. cbn [snd]. fold t. fold readings.
  destruct (R_cam_imu_ s)
    as [[[[r00 r01] r02] [[r10 r11] r12]] [[r20 r21] r22]] eqn:HR.
  cbv beta iota.
  assert (map (forward_gyro (r00, r01, r02, (r10, r11, r12), (r20, r21, r22))) readings
          = map (fun r =>
                   add_gyro_reading
                     (let '(v0, v1, v2) := omega r in
                      (fadd (fadd (fmul r00 v0) (fmul r10 v1)) (fmul r20 v2),
                       fadd (fadd (fmul r01 v0) (fmul r11 v1)) (fmul r21 v2),
                       fadd (fadd (fmul r02 v0) (fmul r12 v1)) (fmul r22 v2))))
              readings) as Hmap.
  { apply map_ext. intros r. unfold forward_gyro. cbn.
    destruct (omega r) as [[v0 v1] v2]. reflexivity. }
  eexists. split; [|split; [reflexivity|split]].
  - rewrite <- Hmap. cbn [app]. reflexivity.
  - rewrite Happ, Happ, Hpg. cbn [gyro_calls app]. rewrite app_nil_r.
    apply Hlen.
  - split; [|split].
    + intros g. rewrite !elem_of_cons. intros [Hc|[Hc|[Hc|Hc]]]; try discriminate.
      destruct (Hpub _ Hc) as [Hc'|(f & st & i & Hc')]; discriminate.
    + intros i t'. rewrite !elem_of_cons. intros [Hc|[Hc|[Hc|Hc]]]; try discriminate.
      destruct (Hpub _ Hc) as [Hc'|(f & st & i' & Hc')]; discriminate.
    + intros Hnil. subst readings. rewrite Hnil. reflexivity.
Qed.

(** C7: when the image does not decode, the image callback returns with the
    object as it was, buffer included, and its only call is the error log:
    nothing is taken out of the buffer, nothing reaches the tracker; a run
    continues after the arrival as if the image had never come, so the frame
    is not looked at again. *)
Theorem decode_failure_drops_frame (msg : ImageMsg) (ans : Answers)
    (s : RosInterface) (what : string) (evs : list Event) :
  toCvCopy_MONO8 msg = inl what ->
  imageCallback msg ans s = (s, [ROS_ERROR ("cv_bridge exception: " +:+ what)]) /\
  imu_queue_ (imageCallback msg ans s).1 = imu_queue_ s /\
  drained (ImageArrived msg ans) s = [] /\
  (forall g, add_gyro_reading g ∉ (imageCallback msg ans s).2) /\
  (forall i t, set_current_image i t ∉ (imageCallback msg ans s).2) /\
  run (ImageArrived msg ans :: evs) s
  = ((run evs s).1, ROS_ERROR ("cv_bridge exception: " +:+ what) :: (run evs s).2).
Proof.
  intros Hd.
  assert (imageCallback msg ans s
          = (s, [ROS_ERROR ("cv_bridge exception: " +:+ what)])) as Hcb
    by (unfold imageCallback; rewrite Hd; reflexivity).
  split; [exact Hcb|].
  split; [rewrite Hcb; reflexivity|].
  split; [unfold drained; rewrite Hd; reflexivity|].
  split; [|split].
  - intros g. rewrite Hcb. cbn [snd]. rewrite elem_of_cons. intros [Hc|Hc]; [discriminate|inversion Hc].
  - intros i t. rewrite Hcb. cbn [snd]. rewrite elem_of_cons. intros [Hc|Hc]; [discriminate|inversion Hc].
  - cbn [run step]. rewrite Hcb. destruct (run evs s) as [s2 c2]. reflexivity.
Qed.
End Forwarding.

Section Forwarding_exact.
#[local] Existing Instance Exact.floats.
#[local] Existing Instance Exact.external.

Lemma gyro_forwarded_before_frame_witness :
  let msg := Exact.good_image (125 # 100) in
  let s := Exact.turned in
  let t := toSec (image_stamp msg) in
  let readings := imu_since_prev_img (imu_queue_ s) t in
  (R_cam_imu_ s = (((0, -1, 0), (1, 0, 0), (0, 0, 1)) : Matrix3)%Q /\
   map omega readings = ([(2, 0, 0); (3, 0, 0)] : list Vector3)%Q /\
   (imageCallback msg Exact.nobody s).2
   = [add_gyro_reading ((0, -2, 0) : Vector3)%Q;
      add_gyro_reading ((0, -3, 0) : Vector3)%Q;
      ROS_INFO_STREAM [Ln 2; Ls " imu readings in queue"];
      set_current_image "frame" (125 # 100)%Q;
      tracked_features;
      new_features;
      ROS_INFO_STREAM [Ls "Feature counts [tracked: "; Ln 12;
                       Ls ",  new: "; Ln 3; Ls "]"]]) /\
  let '((r00, r01, r02), (r10, r11, r12), (r20, r21, r22)) := R_cam_imu_ s in
  let rotated (r : imuReading) : Vector3 :=
    let '(v0, v1, v2) := omega r in
    (fadd (fadd (fmul r00 v0) (fmul r10 v1)) (fmul r20 v2),
     fadd (fadd (fmul r01 v0) (fmul r11 v1)) (fmul r21 v2),
     fadd (fadd (fmul r02 v0) (fmul r12 v1)) (fmul r22 v2)) in
  exists rest,
    (imageCallback msg Exact.nobody s).2
    = map (fun r => add_gyro_reading (rotated r)) readings
      ++ ROS_INFO_STREAM [Ln (length readings); Ls " imu readings in queue"]
      :: set_current_image "frame" t :: rest /\
    readings = map snd (take (frame_end (imu_queue_ s) t) (imu_queue_ s)) /\
    length (gyro_calls (imageCallback msg Exact.nobody s).2) = length readings /\
    (forall g, add_gyro_reading g ∉ rest) /\
    (forall i t', set_current_image i t' ∉ rest) /\
    (imu_queue_ s = [] ->
     (imageCallback msg Exact.nobody s).2
     = ROS_INFO_STREAM [Ln 0; Ls " imu readings in queue"]
       :: set_current_image "frame" t :: rest).
Proof.
  split.
  - repeat split; vm_compute; reflexivity.
  - apply (gyro_forwarded_before_frame
             (Exact.good_image (125 # 100)) Exact.nobody Exact.turned "frame").
    reflexivity.
Defined.

Lemma decode_failure_drops_frame_witness :
  let msg := Exact.bad_image (125 # 100) in
  let s := Exact.buffered in
  let evs := [ImageArrived (Exact.good_image (125 # 100)) Exact.nobody] in
  imageCallback msg Exact.nobody s
  = (s, [ROS_ERROR ("cv_bridge exception: " +:+ "unsupported encoding")]) /\
  imu_queue_ (imageCallback msg Exact.nobody s).1 = imu_queue_ s /\
  drained (ImageArrived msg Exact.nobody) s = [] /\
  (forall g, add_gyro_reading g ∉ (imageCallback msg Exact.nobody s).2) /\
  (forall i t, set_current_image i t ∉ (imageCallback msg Exact.nobody s).2) /\
  run (ImageArrived msg Exact.nobody :: evs) s
  = ((run evs s).1,
     ROS_ERROR ("cv_bridge exception: " +:+ "unsupported encoding") :: (run evs s).2).
Proof.
  apply (decode_failure_drops_frame
           (Exact.bad_image (125 # 100)) Exact.nobody Exact.buffered
           "unsupported encoding").
  reflexivity.
Defined.
End Forwarding_exact.

(** ** Ingestion and conservation of the readings *)

Section Ingestion.
Context `{External}.

Lemma run_cons_state (e : Event) (evs : list Event) (s : RosInterface) :
  (run (e :: evs) s).1 = (run evs (step e s).1).1.
Proof.
  cbn [run]. destruct (step e s) as [s1 c1]. cbn [fst].
  destruct (run evs s1) as [s2 c2]. reflexivity.
Qed.

(** After the first message [prev_imu_time_] is never assigned again: a
    message appends its reading, measured against the stored stamp, and
    leaves the stamp as it is. *)
Lemma imuCallback_steady (imu : ImuMsg) (s : RosInterface) :
  is_first_imu_ s = false ->
  let t := toSec (imu_stamp imu) in
  let s' := imuCallback imu s in
  imu_queue_ s' = imu_queue_ s ++ [(t, current_imu imu t (prev_imu_time_ s))] /\
  prev_imu_time_ s' = prev_imu_time_ s /\
  is_first_imu_ s' = false.
Proof.
  intros Hf t s'. subst s'. unfold imuCallback. rewrite Hf.
  split; [reflexivity|]. split; [reflexivity|exact Hf].
Qed.

Lemma imuCallback_first (imu : ImuMsg) (s : RosInterface) :
  is_first_imu_ s = true ->
  let s' := imuCallback imu s in
  imu_queue_ s' = imu_queue_ s /\
  prev_imu_time_ s' = toSec (imu_stamp imu) /\
  is_first_imu_ s' = false.
Proof.
  intros Hf s'. subst s'. unfold imuCallback. rewrite Hf.
  split; [reflexivity|]. split; reflexivity.
Qed.

(** An image arrival splits the buffer into what it takes out and what it
    leaves, and touches neither [is_first_imu_] nor [prev_imu_time_]. *)
Lemma imageCallback_conserves (msg : ImageMsg) (ans : Answers) (s : RosInterface) :
  let s' := (imageCallback msg ans s).1 in
  drained (ImageArrived msg ans) s ++ map snd (imu_queue_ s') = map snd (imu_queue_ s) /\
  prev_imu_time_ s' = prev_imu_time_ s /\
  is_first_imu_ s' = is_first_imu_ s.
Proof.
  intros s'. subst s'. unfold drained, imageCallback.
  destruct (toCvCopy_MONO8 msg) as [what|img]; cbn [fst].
  - split; [reflexivity|]. split; reflexivity.
  - split; [|split; reflexivity].
    cbn [imu_queue_ set_imu_queue].
    unfold imu_since_prev_img, erase_to_frame_end.
    rewrite <- map_app, take_drop. reflexivity.
Qed.






End Ingestion.

Section Ingestion_exact.
#[local] Existing Instance Exact.floats.
#[local] Existing Instance Exact.external.



(** C3: at the messages stamped 1, 1.1 and 1.2 the buffer holds the second
    and the third reading; the third carries [dT = 1.2 - 1], the distance to
    the first message, which is not the distance [1.2 - 1.1] to the message
    before it. *)
Theorem dT_measured_from_first_message :
  let s := (run (take 3 Exact.stream) Exact.blank).1 in
  map (fun x => (x.1, dT x.2)) (imu_queue_ s)
  = [(11 # 10, Qminus (11 # 10) 1); (12 # 10, Qminus (12 # 10) 1)] /\
  ~ Qeq (Qminus (12 # 10) 1) (Qminus (12 # 10) (11 # 10)).
Proof.
  split; [reflexivity|].
  vm_compute. discriminate.
Qed.
End Ingestion_exact.

(** ** The derived parameters *)

Section Parameters.
Context `{External}.
Local Open Scope string_scope.
Local Open Scope list_scope.

(** What a successful [load_parameters] has stored *)
Lemma load_parameters_stored (T_cam_imu_0 : Matrix4) (s s' : RosInterface)
    (cs : list Call) :
  load_parameters T_cam_imu_0 s = inr (s', cs) ->
  let nh := nh_ s in
  exists i0 i1 i2 i3 more T,
    intrinsics nh = i0 :: i1 :: i2 :: i3 :: more /\
    K_ s' = Mat_set (Mat_set (Mat_set (Mat_set eye3 0 0 i0) 1 1 i1) 0 2 i2) 1 2 i3 /\
    R_cam_imu_ s' = block33 T /\
    camera_ s' = {| c_u := i0; c_v := i1; f_u := i2; f_v := i3;
                    q_CI := Quaternion_of_Matrix3 (block33 T);
                    p_C_I := block31 T |} /\
    u_var_prime (noise_params_ s')
    = fpow2 (fdiv (param_float nh "feature_covariance" (float_of_int 7)) i2) /\
    v_var_prime (noise_params_ s')
    = fpow2 (fdiv (param_float nh "feature_covariance" (float_of_int 7)) i3) /\
    msckf_params_ s'
    = {| max_gn_cost_norm :=
           fpow2 (fdiv (param_float nh "max_gn_cost_norm" (float_of_int 11)) i2);
         translation_threshold :=
           param_float nh "translation_threshold" (float_lit 0.05);
         min_rcond := param_float nh "min_rcond" (float_lit 3e-12);
         redundancy_angle_thresh :=
           param_float nh "keyframe_transl_dist" (float_lit 0.005);
         redundancy_distance_thresh :=
           param_float nh "keyframe_rot_dist" (float_lit 0.05);
         max_track_length := param_int nh "max_track_length" 1000;
         min_track_length := param_int nh "min_track_length" 3;
         max_cam_states := param_int nh "max_cam_states" 20 |} /\
    n_grid_rows_ s' = param_int nh "n_grid_rows" 8 /\
    n_grid_cols_ s' = param_int nh "n_grid_cols" 8 /\
    ransac_threshold_ s' = ransac_threshold_ s /\
    init_imu_state_ s' = init_imu_state_ s /\
    count_initialize cs = 0%nat.
Proof.
  intros Hl nh. subst nh. unfold load_parameters in Hl. cbv zeta in Hl.
  destruct (intrinsics (nh_ s)) as [|i0 [|i1 [|i2 [|i3 more]]]]; try discriminate Hl.
  destruct (default (replicate 4 (float_of_int 0)) _)
    as [|d0 [|d1 [|d2 [|d3 dmore]]]]; try discriminate Hl.
  destruct (read_T_cam_imu _ _) as [e|T]; [discriminate Hl|].
  injection Hl as Hs' Hcs. subst s' cs.
  exists i0, i1, i2, i3, more, T.
  repeat (split; [reflexivity|]). reflexivity.
Qed.

(** What the constructor does after loading *)
Lemma RosInterface_new_calls (nh : NodeHandle) (T_cam_imu_0 : Matrix4)
    (s0 s : RosInterface) (cs : list Call) :
  RosInterface_new nh T_cam_imu_0 s0 = inr (s, cs) ->
  exists loaded,
    load_parameters T_cam_imu_0 (set_nh_calibrating nh true s0) = inr (s, loaded) /\
    cs = loaded
         ++ [TrackHandler_new (K_ s) (dist_coeffs_ s) (distortion_model_ s);
             set_grid_size (n_grid_rows_ s) (n_grid_cols_ s);
             set_ransac_threshold (ransac_threshold_ s);
             it_subscribe "/rig/left/image_mono" 1;
             it_advertise "/rig/left/image_mono/tracks" 1;
             nh_subscribe "/rig/imu" 10].
Proof.
  unfold RosInterface_new.
  destruct (load_parameters _ _) as [e|[s1 loaded]]; [discriminate|].
  intros [= <- <-]. exists loaded. split; reflexivity.
Qed.

Lemma count_initialize_app (cs1 cs2 : list Call) :
  count_initialize (cs1 ++ cs2) = (count_initialize cs1 + count_initialize cs2)%nat.
Proof.
  induction cs1 as [|c cs1 IH]; [reflexivity|].
  destruct c; cbn [app count_initialize]; rewrite IH; reflexivity.
Qed.

(** C10: when the intrinsics read from the configuration are the four
    elements [e0, e1, e2, e3], a successful [load_parameters] stores [e0] and
    [e1] as the focal entries [K(0,0)], [K(1,1)] and [e2], [e3] as the
    principal-point entries [K(0,2)], [K(1,2)] of the matrix that
    [setup_track_handler] passes to the tracker, and stores [e0], [e1] as
    [c_u], [c_v] and [e2], [e3] as [f_u], [f_v] of the camera that
    [setup_msckf] passes to the estimator; the two agree on the focal lengths
    exactly when [e0 = e2] and [e1 = e3]. *)
Theorem intrinsics_roles (T_cam_imu_0 : Matrix4) (s s' : RosInterface)
    (cs : list Call) (e0 e1 e2 e3 : float) :
  intrinsics (nh_ s) = [e0; e1; e2; e3] ->
  load_parameters T_cam_imu_0 s = inr (s', cs) ->
  (Mat_at (K_ s') 0 0 = e0 /\ Mat_at (K_ s') 1 1 = e1 /\
   Mat_at (K_ s') 0 2 = e2 /\ Mat_at (K_ s') 1 2 = e3) /\
  (c_u (camera_ s') = e0 /\ c_v (camera_ s') = e1 /\
   f_u (camera_ s') = e2 /\ f_v (camera_ s') = e3) /\
  TrackHandler_new (K_ s') (dist_coeffs_ s') (distortion_model_ s')
    ∈ setup_track_handler s' /\
  MSCKF_initialize (camera_ s') (noise_params_ s') (msckf_params_ s')
    (init_imu_state_ s') ∈ setup_msckf s' /\
  ((Mat_at (K_ s') 0 0 = f_u (camera_ s') /\ Mat_at (K_ s') 1 1 = f_v (camera_ s'))
   <-> (e0 = e2 /\ e1 = e3)).
Proof.
  intros Hi Hl.
  destruct (load_parameters_stored _ _ _ _ Hl)
    as (i0 & i1 & i2 & i3 & more & T & Hi' & HK & _ & Hcam & _).
  rewrite Hi in Hi'. injection Hi' as <- <- <- <- _.
  rewrite HK, Hcam. cbn.
  split; [repeat split|].
  split; [repeat split|].
  split; [unfold setup_track_handler; rewrite HK, elem_of_cons; left; reflexivity|].
  split; [unfold setup_msckf; rewrite Hcam, !elem_of_cons; right; left; reflexivity|].
  reflexivity.
Qed.
(** The pixel noise and the cost norm are scaled by the [f_u], [f_v] of the
    camera as it was just stored. *)
Lemma noise_scaled_by_camera (T_cam_imu_0 : Matrix4) (s s' : RosInterface)
    (cs : list Call) :
  load_parameters T_cam_imu_0 s = inr (s', cs) ->
  let feature_cov := param_float (nh_ s) "feature_covariance" (float_of_int 7) in
  u_var_prime (noise_params_ s') = fpow2 (fdiv feature_cov (f_u (camera_ s'))) /\
  v_var_prime (noise_params_ s') = fpow2 (fdiv feature_cov (f_v (camera_ s'))) /\
  max_gn_cost_norm (msckf_params_ s')
  = fpow2 (fdiv (param_float (nh_ s) "max_gn_cost_norm" (float_of_int 11))
             (f_u (camera_ s'))).
Proof.
  intros Hl.
  destruct (load_parameters_stored _ _ _ _ Hl)
    as (i0 & i1 & i2 & i3 & more & T & _ & _ & _ & Hcam & Hu & Hv & Hp & _).
  rewrite Hcam, Hu, Hv, Hp. cbn. repeat split.
Qed.

(** The thresholds that are stored under their own name, and the two
    keyframe distances, which are stored under each other's. *)
Lemma thresholds_stored (T_cam_imu_0 : Matrix4) (s s' : RosInterface)
    (cs : list Call) :
  load_parameters T_cam_imu_0 s = inr (s', cs) ->
  let nh := nh_ s in
  let p := msckf_params_ s' in
  translation_threshold p = param_float nh "translation_threshold" (float_lit 0.05) /\
  min_rcond p = param_float nh "min_rcond" (float_lit 3e-12) /\
  max_track_length p = param_int nh "max_track_length" 1000 /\
  min_track_length p = param_int nh "min_track_length" 3 /\
  max_cam_states p = param_int nh "max_cam_states" 20 /\
  redundancy_angle_thresh p = param_float nh "keyframe_transl_dist" (float_lit 0.005) /\
  redundancy_distance_thresh p = param_float nh "keyframe_rot_dist" (float_lit 0.05).
Proof.
  intros Hl nh p. subst nh p.
  destruct (load_parameters_stored _ _ _ _ Hl)
    as (i0 & i1 & i2 & i3 & more & T & _ & _ & _ & _ & _ & _ & Hp & _).
  rewrite Hp. cbn. repeat split.
Qed.

(** A parameter that the store does not hold reads as its default *)
Lemma param_float_absent (nh : NodeHandle) (key : string) (d : float) :
  nh !! key = None -> param_float nh key d = d.
Proof.
  intros Hk. unfold param_float, getParam_float, getParam_double.
  rewrite Hk. reflexivity.
Qed.

Lemma param_int_absent (nh : NodeHandle) (key : string) (d : Z) :
  nh !! key = None -> param_int nh key d = d.
Proof.
  intros Hk. unfold param_int, getParam_int. rewrite Hk. reflexivity.
Qed.

(** The threshold handed to the tracker is the member as the constructor
    found it, whatever the configuration holds; the grid size is the one
    read from the configuration. *)
Lemma tracker_setup (nh : NodeHandle) (T_cam_imu_0 : Matrix4)
    (s0 s : RosInterface) (cs : list Call) :
  RosInterface_new nh T_cam_imu_0 s0 = inr (s, cs) ->
  set_grid_size (param_int nh "n_grid_rows" 8) (param_int nh "n_grid_cols" 8) ∈ cs /\
  set_ransac_threshold (ransac_threshold_ s0) ∈ cs /\
  (forall thr, set_ransac_threshold thr ∈ cs -> thr = ransac_threshold_ s0).
Proof.
  intros Hn.
  destruct (RosInterface_new_calls _ _ _ _ _ Hn) as (loaded & Hl & ->).
  destruct (load_parameters_stored _ _ _ _ Hl)
    as (i0 & i1 & i2 & i3 & more & T & _ & _ & _ & _ & _ & _ & _
        & Hr & Hc & Ht & _).
  cbn [nh_ set_nh_calibrating ransac_threshold_] in Hr, Hc, Ht.
  rewrite Hr, Hc, Ht.
  assert (forall c, c ∈ loaded -> exists items, c = ROS_INFO_STREAM items) as Hlog.
  { unfold load_parameters in Hl. cbv zeta in Hl.
    destruct (intrinsics _) as [|j0 [|j1 [|j2 [|j3 jmore]]]]; try discriminate Hl.
    destruct (default (replicate 4 (float_of_int 0)) _)
      as [|d0 [|d1 [|d2 [|d3 dmore]]]]; try discriminate Hl.
    destruct (read_T_cam_imu _ _) as [e|T']; [discriminate Hl|].
    injection Hl as _ Hcs. subst loaded.
    intros c. rewrite !elem_of_cons.
    intros [->|[->|[->|[->|[->|Hc']]]]]; eauto. inversion Hc'. }
  split; [|split].
  - rewrite elem_of_app, !elem_of_cons. right. right. left. reflexivity.
  - rewrite elem_of_app, !elem_of_cons. right. right. right. left. reflexivity.
  - intros thr. rewrite elem_of_app, !elem_of_cons.
    intros [Hc'|[Hc'|[Hc'|[Hc'|[Hc'|[Hc'|[Hc'|Hc']]]]]]]; try discriminate Hc'.
    + destruct (Hlog _ Hc') as [items Hi]. discriminate Hi.
    + injection Hc' as ->. reflexivity.
    + inversion Hc'.
Qed.

End Parameters.

Section Parameters_exact.
#[local] Existing Instance Exact.floats.
#[local] Existing Instance Exact.external.
Local Open Scope string_scope.
Local Open Scope list_scope.
Local Open Scope Q_scope.

Lemma succeeded_inr (r : Failure + (RosInterface * list Call)) :
  Exact.succeeded r = true -> r = inr (Exact.state_of r, Exact.calls_of r).
Proof. destruct r as [e|[s cs]]; [discriminate|reflexivity]. Qed.

Lemma loaded_ok :
  load_parameters Exact.T_blank Exact.constructing
  = inr (Exact.loaded, Exact.loaded_calls).
Proof. apply succeeded_inr. vm_compute. reflexivity. Qed.

Lemma constructed_ok :
  RosInterface_new Exact.calibration Exact.T_blank Exact.blank
  = inr (Exact.constructed, Exact.constructed_calls).
Proof. apply succeeded_inr. vm_compute. reflexivity. Qed.

Lemma constructed_tuned_ok :
  RosInterface_new Exact.tuned Exact.T_blank Exact.blank
  = inr (Exact.constructed_tuned, Exact.constructed_tuned_calls).
Proof. apply succeeded_inr. vm_compute. reflexivity. Qed.

Lemma intrinsics_roles_witness :
  let s' := Exact.loaded in
  (Mat_at (K_ s') 0 0 = 300 /\ Mat_at (K_ s') 1 1 = 300 /\
   Mat_at (K_ s') 0 2 = 320 /\ Mat_at (K_ s') 1 2 = 240) /\
  (c_u (camera_ s') = 300 /\ c_v (camera_ s') = 300 /\
   f_u (camera_ s') = 320 /\ f_v (camera_ s') = 240) /\
  TrackHandler_new (K_ s') (dist_coeffs_ s') (distortion_model_ s')
    ∈ setup_track_handler s' /\
  MSCKF_initialize (camera_ s') (noise_params_ s') (msckf_params_ s')
    (init_imu_state_ s') ∈ setup_msckf s' /\
  ((Mat_at (K_ s') 0 0 = f_u (camera_ s') /\ Mat_at (K_ s') 1 1 = f_v (camera_ s'))
   <-> (300 = 320 /\ 300 = 240)).
Proof.
  apply (intrinsics_roles Exact.T_blank Exact.constructing Exact.loaded
           Exact.loaded_calls 300 300 320 240).
  - vm_compute. reflexivity.
  - exact loaded_ok.
Defined.

(** C8, as stated, at [Exact.calibration]: the constructor succeeds and the
    number of [initialize] calls it makes is not one. *)
Lemma constructor_makes_no_initialize_call :
  RosInterface_new Exact.calibration Exact.T_blank Exact.blank
  = inr (Exact.constructed, Exact.constructed_calls) /\
  count_initialize Exact.constructed_calls <> 1%nat.
Proof.
  split; [exact constructed_ok|].
  vm_compute. discriminate.
Qed.

(** C1: at the intrinsics [f_u = f_v = 300, c_u = 320, c_v = 240] and the
    default pixel deviation 7 the stored variances are [(7/320)^2] and
    [(7/240)^2] and the stored cost norm is [(11/320)^2]: the divisors are
    the principal point, and none of the three is the value obtained with the
    focal length 300. *)
Theorem pixel_noise_divided_by_principal_point :
  let s := Exact.loaded in
  load_parameters Exact.T_blank Exact.constructing = inr (s, Exact.loaded_calls) /\
  intrinsics Exact.calibration = [300; 300; 320; 240] /\
  Exact.calibration !! "feature_covariance" = None /\
  Exact.calibration !! "max_gn_cost_norm" = None /\
  u_var_prime (noise_params_ s) == (7 / 320) ^ 2 /\
  v_var_prime (noise_params_ s) == (7 / 240) ^ 2 /\
  max_gn_cost_norm (msckf_params_ s) == (11 / 320) ^ 2 /\
  ~ u_var_prime (noise_params_ s) == (7 / 300) ^ 2 /\
  ~ v_var_prime (noise_params_ s) == (7 / 300) ^ 2 /\
  ~ max_gn_cost_norm (msckf_params_ s) == (11 / 300) ^ 2.
Proof.
  split; [exact loaded_ok|].
  repeat split; try (vm_compute; reflexivity); vm_compute; discriminate.
Qed.

(** C6: at a configuration with [keyframe_transl_dist = 1] and
    [keyframe_rot_dist = 2] the translation distance is stored in
    [redundancy_angle_thresh] and the rotation distance in
    [redundancy_distance_thresh]. *)
Theorem keyframe_thresholds_crossed :
  let s := Exact.constructed_tuned in
  RosInterface_new Exact.tuned Exact.T_blank Exact.blank
  = inr (s, Exact.constructed_tuned_calls) /\
  getParam_float Exact.tuned "keyframe_transl_dist" = Some 1 /\
  getParam_float Exact.tuned "keyframe_rot_dist" = Some 2 /\
  redundancy_angle_thresh (msckf_params_ s) = 1 /\
  redundancy_distance_thresh (msckf_params_ s) = 2.
Proof.
  split; [exact constructed_tuned_ok|].
  repeat split; vm_compute; reflexivity.
Qed.

(** C9: at a configuration with [ransac_threshold_ = 0.5], and at one without
    the parameter, the tracker is given the grid size 8 by 8 of the defaults
    and, as its RANSAC threshold, the value 0 that the member had before the
    constructor ran: neither the configured 0.5 nor the default 0.000002. *)
Theorem ransac_threshold_not_loaded :
  (RosInterface_new Exact.tuned Exact.T_blank Exact.blank
   = inr (Exact.constructed_tuned, Exact.constructed_tuned_calls) /\
   getParam_float Exact.tuned "ransac_threshold_" = Some (1 # 2) /\
   set_grid_size 8 8 ∈ Exact.constructed_tuned_calls /\
   set_ransac_threshold 0 ∈ Exact.constructed_tuned_calls /\
   forall thr, set_ransac_threshold thr ∈ Exact.constructed_tuned_calls ->
               thr = 0 /\ ~ thr == 1 # 2) /\
  (RosInterface_new Exact.calibration Exact.T_blank Exact.blank
   = inr (Exact.constructed, Exact.constructed_calls) /\
   Exact.calibration !! "ransac_threshold_" = None /\
   set_grid_size 8 8 ∈ Exact.constructed_calls /\
   set_ransac_threshold 0 ∈ Exact.constructed_calls /\
   forall thr, set_ransac_threshold thr ∈ Exact.constructed_calls ->
               thr = 0 /\ ~ thr == 0.000002).
Proof.
  split.
  - split; [exact constructed_tuned_ok|].
    split; [vm_compute; reflexivity|].
    destruct (tracker_setup _ _ _ _ _ constructed_tuned_ok) as (Hg & Hr & Hall).
    split; [exact Hg|]. split; [exact Hr|].
    intros thr Hthr. rewrite (Hall thr Hthr). split; [reflexivity|].
    vm_compute. discriminate.
  - split; [exact constructed_ok|].
    split; [vm_compute; reflexivity|].
    destruct (tracker_setup _ _ _ _ _ constructed_ok) as (Hg & Hr & Hall).
    split; [exact Hg|]. split; [exact Hr|].
    intros thr Hthr. rewrite (Hall thr Hthr). split; [reflexivity|].
    vm_compute. discriminate.
Qed.
End Parameters_exact.

(** ** Reading the extrinsic transform *)

Section Extrinsics.
Context `{External}.

Lemma Matrix4_set_at (T : Matrix4) (i j : nat) (x : float) (i' j' : nat) :
  Matrix4_set T i j x i' j' = if decide (i' = i /\ j' = j) then x else T i' j'.
Proof.
  unfold Matrix4_set.
  destruct (Nat.eqb_spec i i') as [->|Hi], (Nat.eqb_spec j j') as [->|Hj]; cbn;
    destruct (decide _) as [[? ?]|Hn]; try reflexivity; try congruence.
  exfalso. apply Hn. split; reflexivity.
Qed.

Lemma read_row_entries (row : list XmlRpcValue) (T T' : Matrix4) (i j0 : nat) :
  read_row T i j0 row = inr T' ->
  forall i' j',
    T' i' j'
    = match (if decide (i' = i /\ j0 <= j') then row !! (j' - j0) else None) with
      | Some (TypeDouble d) => float_of_double d
      | _ => T i' j'
      end.
Proof.
  revert T j0. induction row as [|v row IH]; intros T j0 Hr i' j'.
  - injection Hr as <-. destruct (decide _); reflexivity.
  - destruct v as [|b|z|d|str|l]; try discriminate Hr.
    cbn [read_row] in Hr.
    destruct ((i <? 4)%nat && (j0 <? 4)%nat)%bool; [|discriminate Hr].
    rewrite (IH _ _ Hr i' j'), Matrix4_set_at.
    destruct (decide (i' = i /\ S j0 <= j')) as [[-> Hj]|Hn].
    + destruct (decide (i = i /\ j0 <= j')) as [_|Hn']; [|exfalso; apply Hn'; lia].
      replace (j' - j0) with (S (j' - S j0)) by lia. cbn [lookup list_lookup].
      destruct (row !! (j' - S j0)) as [[|b|z|d'|str|l]|]; try reflexivity;
        destruct (decide (i = i /\ j' = j0)); try reflexivity; lia.
    + destruct (decide (i' = i /\ j' = j0)) as [[-> ->]|Hn2].
      * destruct (decide (i = i /\ j0 <= j0)) as [_|Hn']; [|exfalso; apply Hn'; lia].
        rewrite Nat.sub_diag. reflexivity.
      * destruct (decide (i' = i /\ j0 <= j')) as [[-> Hj]|_]; [|reflexivity].
        exfalso. destruct (decide (j' = j0)) as [->|Hne]; [apply Hn2|apply Hn]; lia.
Qed.

Lemma read_rows_entries (rows : list XmlRpcValue) (T T' : Matrix4) (i0 : nat) :
  read_rows T i0 rows = inr T' ->
  forall i' j',
    T' i' j'
    = from_option float_of_double (T i' j')
        (if decide (i0 <= i') then entry rows (i' - i0) j' else None).
Proof.
  revert T i0. induction rows as [|v rows IH]; intros T i0 Hr i' j'.
  - injection Hr as <-. destruct (decide _); reflexivity.
  - destruct v as [|b|z|d|str|row]; try discriminate Hr.
    cbn [read_rows] in Hr.
    destruct (read_row T i0 0 row) as [e|T1] eqn:Hrow; [discriminate Hr|].
    rewrite (IH _ _ Hr i' j'), (read_row_entries _ _ _ _ _ Hrow i' j').
    destruct (decide (S i0 <= i')) as [Hi|Hi].
    + destruct (decide (i0 <= i')) as [_|Hn]; [|lia].
      destruct (decide (i' = i0 /\ 0 <= j')) as [[-> _]|_]; [lia|].
      unfold entry. replace (i' - i0) with (S (i' - S i0)) by lia. reflexivity.
    + cbn [from_option].
      destruct (decide (i0 <= i')) as [Hle|Hgt].
      * assert (i' = i0) as -> by lia.
        destruct (decide (i0 = i0 /\ 0 <= j')) as [_|Hn]; [|exfalso; apply Hn; lia].
        unfold entry. rewrite Nat.sub_diag, Nat.sub_0_r. cbn [lookup list_lookup].
        destruct (row !! j') as [[|b|z|d|str|l]|]; reflexivity.
      * destruct (decide (i' = i0 /\ 0 <= j')) as [[-> _]|_]; [lia|reflexivity].
Qed.

Lemma read_T_cam_imu_at (T0 T : Matrix4) (v : XmlRpcValue) :
  read_T_cam_imu T0 v = inr T ->
  exists rows,
    v = TypeArray rows /\
    forall i j, T i j = from_option float_of_double (T0 i j) (entry rows i j).
Proof.
  intros Hr. destruct v as [|b|z|d|str|rows]; try discriminate Hr.
  exists rows. split; [reflexivity|]. intros i j.
  rewrite (read_rows_entries _ _ _ _ Hr i j).
  destruct (decide (0 <= i)) as [_|Hn]; [|lia].
  rewrite Nat.sub_0_r. reflexivity.
Qed.

(** X1: when the loops over [ros_param_list] get through, the value is an
    array, and every coefficient [T_cam_imu_(i,j)] is the element [j] of row
    [i] narrowed to float where the array has that element, and is what the
    matrix held at its declaration where it has not; a full array of four
    rows of four doubles therefore fixes all sixteen coefficients. *)
Theorem read_T_cam_imu_entries (T0 T : Matrix4) (v : XmlRpcValue) :
  read_T_cam_imu T0 v = inr T ->
  exists rows,
    v = TypeArray rows /\
    (forall i j, T i j = from_option float_of_double (T0 i j) (entry rows i j)) /\
    (forall i j d, entry rows i j = Some d -> T i j = float_of_double d).
Proof.
  intros Hr. destruct (read_T_cam_imu_at _ _ _ Hr) as (rows & Hv & Hall).
  exists rows. split; [exact Hv|]. split; [exact Hall|].
  intros i j d Hd. rewrite Hall, Hd. reflexivity.
Qed.



End Extrinsics.

(** ** More of what [load_parameters] stores *)

Section Loading.
Context `{External}.
Local Open Scope string_scope.
Local Open Scope list_scope.

(** The members that a successful [load_parameters] derives from the
    extrinsic transform, the distortion coefficients and the variances, and
    the members it leaves alone *)
Lemma load_parameters_rest (T_cam_imu_0 : Matrix4) (s s' : RosInterface)
    (cs : list Call) :
  load_parameters T_cam_imu_0 s = inr (s', cs) ->
  let nh := nh_ s in
  exists d0 d1 d2 d3 dmore T,
    distortion_coeffs nh = d0 :: d1 :: d2 :: d3 :: dmore /\
    read_T_cam_imu T_cam_imu_0
      (default TypeInvalid (getParam_xml nh (kalibr_camera nh +:+ "/T_cam_imu")))
    = inr T /\
    R_cam_imu_ s' = block33 T /\
    p_cam_imu_ s' = block31 T /\
    q_CI (camera_ s') = Quaternion_of_Matrix3 (block33 T) /\
    p_C_I (camera_ s') = block31 T /\
    dist_coeffs_ s' = d0 :: d1 :: d2 :: d3 :: zeros (length dmore) /\
    initial_imu_covar (noise_params_ s')
    = replicate 3 (param_float nh "imu_covars/q_var_init" (float_lit 1e-5))
      ++ replicate 3 (param_float nh "imu_covars/bg_var_init" (float_lit 1e-2))
      ++ replicate 3 (param_float nh "imu_covars/v_var_init" (float_lit 1e-2))
      ++ replicate 3 (param_float nh "imu_covars/ba_var_init" (float_lit 1e-2))
      ++ replicate 3 (param_float nh "imu_covars/p_var_init" (float_lit 1e-12)) /\
    Q_imu (noise_params_ s')
    = replicate 3 (param_float nh "imu_vars/w_var" (float_lit 1e-5))
      ++ replicate 3 (param_float nh "imu_vars/dbg_var" (float_lit 3.6733e-5))
      ++ replicate 3 (param_float nh "imu_vars/a_var" (float_lit 1e-3))
      ++ replicate 3 (param_float nh "imu_vars/dba_var" (float_lit 7e-4)) /\
    nh_ s' = nh_ s /\
    is_calibrating_imu_ s' = is_calibrating_imu_ s /\
    is_first_imu_ s' = is_first_imu_ s /\
    prev_imu_time_ s' = prev_imu_time_ s /\
    imu_queue_ s' = imu_queue_ s.
Proof.
  intros Hl nh. subst nh. unfold load_parameters in Hl. cbv zeta in Hl.
  destruct (intrinsics (nh_ s)) as [|i0 [|i1 [|i2 [|i3 more]]]]; try discriminate Hl.
  fold (distortion_coeffs (nh_ s)) in Hl.
  destruct (distortion_coeffs (nh_ s))
    as [|d0 [|d1 [|d2 [|d3 dmore]]]]; try discriminate Hl.
  destruct (read_T_cam_imu _ _) as [e|T]; [discriminate Hl|].
  injection Hl as Hs' Hcs. subst s' cs.
  exists d0, d1, d2, d3, dmore, T.
  repeat (split; [reflexivity|]). reflexivity.
Qed.

(** X3: after a successful [load_parameters] the extrinsic transform is an
    array in the store, and each coefficient of [R_cam_imu_] and of
    [p_cam_imu_] is the element of the array at its place in the upper left
    3x3 block, resp. the upper three rows of the column with index 3,
    narrowed to float, where the array has that element, and the content of
    the unset local matrix where it has not; the camera gets the quaternion
    of that rotation and that translation. *)
Theorem extrinsics_stored (T_cam_imu_0 : Matrix4) (s s' : RosInterface)
    (cs : list Call) :
  load_parameters T_cam_imu_0 s = inr (s', cs) ->
  exists rows,
    nh_ s !! (kalibr_camera (nh_ s) +:+ "/T_cam_imu") = Some (TypeArray rows) /\
    (forall i j, (i < 3)%nat -> (j < 3)%nat ->
       Mat_at (R_cam_imu_ s') i j
       = from_option float_of_double (T_cam_imu_0 i j) (entry rows i j)) /\
    (forall i, (i < 3)%nat ->
       Vector3_at (p_cam_imu_ s') i
       = from_option float_of_double (T_cam_imu_0 i 3%nat) (entry rows i 3)) /\
    q_CI (camera_ s') = Quaternion_of_Matrix3 (R_cam_imu_ s') /\
    p_C_I (camera_ s') = p_cam_imu_ s'.
Proof.
  intros Hl.
  destruct (load_parameters_rest _ _ _ _ Hl)
    as (d0 & d1 & d2 & d3 & dmore & T & _ & HT & HR & Hp & Hq & Hpc & _).
  destruct (read_T_cam_imu_at _ _ _ HT) as (rows & Hv & Hentries).
  exists rows. unfold getParam_xml in Hv.
  split.
  { destruct (nh_ s !! _) as [v|]; cbn in Hv; [rewrite Hv; reflexivity|discriminate Hv]. }
  rewrite HR, Hp, Hq, Hpc.
  split; [|split; [|split; reflexivity]].
  - intros i j Hi Hj. rewrite <- Hentries.
    destruct i as [|[|[|i]]]; [| | |lia];
      destruct j as [|[|[|j]]]; try lia; reflexivity.
  - intros i Hi. rewrite <- Hentries.
    destruct i as [|[|[|i]]]; [| | |lia]; reflexivity.
Qed.

(** X4: when the store has no extrinsic transform under the camera's name,
    [load_parameters] fails and so does the constructor: no object results
    and no tracker is set up. *)
Theorem missing_extrinsics_abort (nh : NodeHandle) (T_cam_imu_0 : Matrix4)
    (s0 : RosInterface) :
  nh !! (kalibr_camera nh +:+ "/T_cam_imu") = None ->
  (exists e, load_parameters T_cam_imu_0 (set_nh_calibrating nh true s0) = inl e) /\
  (exists e, RosInterface_new nh T_cam_imu_0 s0 = inl e) /\
  (length (intrinsics nh) >= 4 -> length (distortion_coeffs nh) >= 4 ->
   RosInterface_new nh T_cam_imu_0 s0 = inl ROS_ASSERT_failed)%nat.
Proof.
  intros Hk.
  assert (forall r, load_parameters T_cam_imu_0 (set_nh_calibrating nh true s0)
                    = inr r -> False) as Hno.
  { intros [s' cs] Hl.
    destruct (load_parameters_rest _ _ _ _ Hl)
      as (d0 & d1 & d2 & d3 & dmore & T & _ & HT & _).
    cbn [nh_ set_nh_calibrating] in HT. unfold getParam_xml in HT.
    rewrite Hk in HT. discriminate HT. }
  split; [|split].
  - destruct (load_parameters _ _) as [e|r]; [eauto|destruct (Hno r eq_refl)].
  - unfold RosInterface_new.
    destruct (load_parameters _ _) as [e|r]; [eauto|destruct (Hno r eq_refl)].
  - intros Hi Hd. unfold RosInterface_new, load_parameters. cbv zeta.
    cbn [nh_ set_nh_calibrating].
    fold (distortion_coeffs nh).
    destruct (intrinsics nh) as [|i0 [|i1 [|i2 [|i3 more]]]]; cbn in Hi; try lia.
    destruct (distortion_coeffs nh) as [|d0 [|d1 [|d2 [|d3 dmore]]]]; cbn in Hd; try lia.
    unfold getParam_xml. rewrite Hk. reflexivity.
Qed.

(** X5: after a successful [load_parameters], [dist_coeffs_] has as many
    entries as the distortion vector read from the store (four zeros when
    the store has none); its first four entries are the first four of that
    vector and every further entry is zero, whatever the vector holds
    there. *)
Theorem dist_coeffs_first_four (T_cam_imu_0 : Matrix4) (s s' : RosInterface)
    (cs : list Call) :
  load_parameters T_cam_imu_0 s = inr (s', cs) ->
  let dc := distortion_coeffs (nh_ s) in
  (4 <= length dc)%nat /\
  dist_coeffs_ s' = take 4 dc ++ zeros (length dc - 4) /\
  length (dist_coeffs_ s') = length dc.
Proof.
  intros Hl dc. subst dc.
  destruct (load_parameters_rest _ _ _ _ Hl)
    as (d0 & d1 & d2 & d3 & dmore & T & Hd & _ & _ & _ & _ & _ & Hdist & _).
  rewrite Hd, Hdist. cbn [length take firstn app Nat.sub].
  split; [lia|]. split; [rewrite Nat.sub_0_r; reflexivity|].
  unfold zeros. rewrite length_replicate. reflexivity.
Qed.

(** The log lines of a successful [load_parameters] *)
Lemma load_parameters_logs (T_cam_imu_0 : Matrix4) (s s' : RosInterface)
    (cs : list Call) :
  load_parameters T_cam_imu_0 s = inr (s', cs) ->
  exists i0 i1 i2 i3 more d0 d1 d2 d3 T,
    intrinsics (nh_ s) = i0 :: i1 :: i2 :: i3 :: more /\
    cs = [ROS_INFO_STREAM [Ls "Loaded "; Ls (kalibr_camera (nh_ s))];
          ROS_INFO_STREAM [Ls "-Intrinsics "; Lf i0; Ls ", "; Lf i1;
                           Ls ", "; Lf i2; Ls ", "; Lf i3];
          ROS_INFO_STREAM [Ls "-Distortion "; Lf d0; Ls ", "; Lf d1; Ls ", "; Lf d2;
                           Ls ", "; Lf d3];
          ROS_INFO_STREAM [Ls "-Camera topic "; Ls (subscribe_topic_ s')];
          ROS_INFO_STREAM [Ls "-T_cam_imu "; Lm T]].
Proof.
  intros Hl. unfold load_parameters in Hl. cbv zeta in Hl.
  destruct (intrinsics (nh_ s)) as [|i0 [|i1 [|i2 [|i3 more]]]]; try discriminate Hl.
  destruct (default (replicate 4 (float_of_int 0)) _)
    as [|d0 [|d1 [|d2 [|d3 dmore]]]]; try discriminate Hl.
  destruct (read_T_cam_imu _ _) as [e|T]; [discriminate Hl|].
  injection Hl as Hs' Hcs. subst s' cs.
  exists i0, i1, i2, i3, more, d0, d1, d2, d3, T. split; reflexivity.
Qed.

(** X6: when the store has no intrinsics under the camera's name, a
    successful [load_parameters] has worked with four zeros: [K_] is the
    identity with zero focal entries, the camera has zero focal lengths and
    principal point, and the pixel variances and the cost norm are squares of
    quotients by the float zero.  The missing key is not reported: the calls
    are the five information lines of every successful load, the intrinsics
    line showing the four zeros, and no error is logged. *)
Theorem missing_intrinsics_zero (T_cam_imu_0 : Matrix4) (s s' : RosInterface)
    (cs : list Call) :
  nh_ s !! (kalibr_camera (nh_ s) +:+ "/intrinsics") = None ->
  load_parameters T_cam_imu_0 s = inr (s', cs) ->
  let o := float_of_int 0 in
  let i := float_of_int 1 in
  K_ s' = ((o, o, o), (o, o, o), (o, o, i)) /\
  (c_u (camera_ s') = o /\ c_v (camera_ s') = o /\
   f_u (camera_ s') = o /\ f_v (camera_ s') = o) /\
  u_var_prime (noise_params_ s')
  = fpow2 (fdiv (param_float (nh_ s) "feature_covariance" (float_of_int 7)) o) /\
  v_var_prime (noise_params_ s')
  = fpow2 (fdiv (param_float (nh_ s) "feature_covariance" (float_of_int 7)) o) /\
  max_gn_cost_norm (msckf_params_ s')
  = fpow2 (fdiv (param_float (nh_ s) "max_gn_cost_norm" (float_of_int 11)) o) /\
  (exists d0 d1 d2 d3 T,
     cs = [ROS_INFO_STREAM [Ls "Loaded "; Ls (kalibr_camera (nh_ s))];
           ROS_INFO_STREAM [Ls "-Intrinsics "; Lf o; Ls ", "; Lf o;
                            Ls ", "; Lf o; Ls ", "; Lf o];
           ROS_INFO_STREAM [Ls "-Distortion "; Lf d0; Ls ", "; Lf d1; Ls ", "; Lf d2;
                            Ls ", "; Lf d3];
           ROS_INFO_STREAM [Ls "-Camera topic "; Ls (subscribe_topic_ s')];
           ROS_INFO_STREAM [Ls "-T_cam_imu "; Lm T]]) /\
  (forall what, ROS_ERROR what ∉ cs).
Proof.
  intros Hk Hl o i. subst o i.
  destruct (load_parameters_stored _ _ _ _ Hl)
    as (i0 & i1 & i2 & i3 & more & T & Hi & HK & _ & Hcam & Hu & Hv & Hp & _).
  destruct (load_parameters_logs _ _ _ _ Hl)
    as (j0 & j1 & j2 & j3 & jmore & d0 & d1 & d2 & d3 & T' & Hj & Hcs).
  unfold intrinsics, getParam_floats in Hi, Hj. rewrite Hk in Hi, Hj.
  cbn in Hi, Hj. injection Hi as <- <- <- <- _. injection Hj as <- <- <- <- _.
  rewrite HK, Hcam, Hu, Hv, Hp. cbn.
  split; [reflexivity|]. split; [repeat split|].
  do 3 (split; [reflexivity|]).
  split; [exists d0, d1, d2, d3, T'; exact Hcs|].
  intros what. rewrite Hcs, !elem_of_cons.
  intros [Hc|[Hc|[Hc|[Hc|[Hc|Hc]]]]]; try discriminate Hc. inversion Hc.
Qed.

(** X7: after a successful [load_parameters] the initial covariance has the
    fifteen diagonal entries [q, q, q, bg, bg, bg, v, v, v, ba, ba, ba, p, p,
    p] and the process noise the twelve entries [w, w, w, dbg, dbg, dbg, a,
    a, a, dba, dba, dba], each variance read from the store under its name;
    a variance that the store does not hold is its default. *)
Theorem covariance_diagonals (T_cam_imu_0 : Matrix4) (s s' : RosInterface)
    (cs : list Call) :
  load_parameters T_cam_imu_0 s = inr (s', cs) ->
  let nh := nh_ s in
  let var key d := param_float nh key (float_lit d) in
  initial_imu_covar (noise_params_ s')
  = replicate 3 (var "imu_covars/q_var_init" 1e-5%Q)
    ++ replicate 3 (var "imu_covars/bg_var_init" 1e-2%Q)
    ++ replicate 3 (var "imu_covars/v_var_init" 1e-2%Q)
    ++ replicate 3 (var "imu_covars/ba_var_init" 1e-2%Q)
    ++ replicate 3 (var "imu_covars/p_var_init" 1e-12%Q) /\
  Q_imu (noise_params_ s')
  = replicate 3 (var "imu_vars/w_var" 1e-5%Q)
    ++ replicate 3 (var "imu_vars/dbg_var" 3.6733e-5%Q)
    ++ replicate 3 (var "imu_vars/a_var" 1e-3%Q)
    ++ replicate 3 (var "imu_vars/dba_var" 7e-4%Q) /\
  length (initial_imu_covar (noise_params_ s')) = 15%nat /\
  length (Q_imu (noise_params_ s')) = 12%nat /\
  (forall key d, nh !! key = None -> var key d = float_lit d).
Proof.
  intros Hl nh var. subst nh var.
  destruct (load_parameters_rest _ _ _ _ Hl)
    as (d0 & d1 & d2 & d3 & dmore & T & _ & _ & _ & _ & _ & _ & _ & Hc & HQ & _).
  rewrite Hc, HQ. repeat split.
  intros key d Hk. unfold param_float, getParam_float, getParam_double.
  rewrite Hk. reflexivity.
Qed.

(** X8: a constructor that succeeds stores the node handle and sets
    [is_calibrating_imu_]; it assigns neither [is_first_imu_] nor
    [prev_imu_time_] nor the buffer nor the initial state: the object has
    them as it had them before the constructor ran. *)
Theorem constructor_leaves_members (nh : NodeHandle) (T_cam_imu_0 : Matrix4)
    (s0 s : RosInterface) (cs : list Call) :
  RosInterface_new nh T_cam_imu_0 s0 = inr (s, cs) ->
  nh_ s = nh /\
  is_calibrating_imu_ s = true /\
  is_first_imu_ s = is_first_imu_ s0 /\
  prev_imu_time_ s = prev_imu_time_ s0 /\
  imu_queue_ s = imu_queue_ s0 /\
  init_imu_state_ s = init_imu_state_ s0.
Proof.
  intros Hn.
  destruct (RosInterface_new_calls _ _ _ _ _ Hn) as (loaded & Hl & _).
  destruct (load_parameters_rest _ _ _ _ Hl)
    as (d0 & d1 & d2 & d3 & dmore & T & _ & _ & _ & _ & _ & _ & _ & _ & _
        & Hnh & Hcal & Hf & Hp & Hq).
  destruct (load_parameters_stored _ _ _ _ Hl)
    as (i0 & i1 & i2 & i3 & more & T' & _ & _ & _ & _ & _ & _ & _
        & _ & _ & _ & Hst & _).
  rewrite Hnh, Hcal, Hf, Hp, Hq, Hst. repeat split.
Qed.
End Loading.

(** ** The callbacks over a run *)

Section Run_properties.
Context `{External}.
Local Open Scope string_scope.
Local Open Scope list_scope.

Lemma run_cons_calls (e : Event) (evs : list Event) (s : RosInterface) :
  (run (e :: evs) s).2 = (step e s).2 ++ (run evs (step e s).1).2.
Proof.
  cbn [run]. destruct (step e s) as [s1 c1]. cbn [fst snd].
  destruct (run evs s1) as [s2 c2]. reflexivity.
Qed.

Lemma step_configuration (e : Event) (s : RosInterface) :
  configuration (step e s).1 = configuration s.
Proof.
  destruct e as [imu|msg ans]; cbn [step fst].
  - unfold imuCallback. destruct (is_first_imu_ s); reflexivity.
  - unfold imageCallback. destruct (toCvCopy_MONO8 msg); reflexivity.
Qed.

(** X9: no callback assigns a member that the constructor or
    [load_parameters] set: after any run the node handle, the camera matrix,
    the distortion, the extrinsics, the grid size, the thresholds, the camera
    and the parameter bundles are those of the start. *)
Theorem run_keeps_configuration (evs : list Event) (s : RosInterface) :
  configuration (run evs s).1 = configuration s.
Proof.
  revert s. induction evs as [|e evs IH]; intros s; [reflexivity|].
  rewrite run_cons_state, IH. apply step_configuration.
Qed.

Lemma gyro_calls_app (cs1 cs2 : list Call) :
  gyro_calls (cs1 ++ cs2) = gyro_calls cs1 ++ gyro_calls cs2.
Proof.
  induction cs1 as [|c cs1 IH]; [reflexivity|].
  destruct c; cbn [app gyro_calls]; rewrite IH; reflexivity.
Qed.

Lemma frame_calls_app (cs1 cs2 : list Call) :
  frame_calls (cs1 ++ cs2) = frame_calls cs1 ++ frame_calls cs2.
Proof.
  induction cs1 as [|c cs1 IH]; [reflexivity|].
  destruct c; cbn [app frame_calls]; rewrite IH; reflexivity.
Qed.

Lemma forward_gyro_calls (R : Matrix3) (readings : list imuReading) :
  gyro_calls (map (forward_gyro R) readings)
  = map (fun r => mul_vec (transpose R) (omega r)) readings /\
  frame_calls (map (forward_gyro R) readings) = [].
Proof.
  induction readings as [|r readings [IHg IHf]]; [split; reflexivity|].
  cbn [map gyro_calls frame_calls forward_gyro].
  split; [f_equal; exact IHg|exact IHf].
Qed.

Lemma publish_extra_calls (publish_time : Time) (ans : Answers) :
  gyro_calls (publish_extra publish_time ans) = [] /\
  frame_calls (publish_extra publish_time ans) = [].
Proof.
  unfold publish_extra. destruct (0 <? NumSubscribers ans)%Z; split; reflexivity.
Qed.

Lemma step_calls (e : Event) (s : RosInterface) :
  gyro_calls (step e s).2
  = map (fun r => mul_vec (transpose (R_cam_imu_ s)) (omega r)) (drained e s) /\
  frame_calls (step e s).2 = decoded_frames [e].
Proof.
  destruct e as [imu|msg ans]; cbn [step snd drained decoded_frames];
    [split; reflexivity|].
  unfold imageCallback. destruct (toCvCopy_MONO8 msg) as [what|img];
    [split; reflexivity|].
  cbn [snd].
  rewrite !gyro_calls_app, !frame_calls_app.
  destruct (forward_gyro_calls (R_cam_imu_ s)
              (imu_since_prev_img (imu_queue_ s) (toSec (image_stamp msg))))
    as [-> ->].
  destruct (publish_extra_calls (image_stamp msg) ans) as [-> ->].
  cbn [gyro_calls frame_calls app]. rewrite app_nil_r. split; reflexivity.
Qed.

Lemma decoded_frames_cons (e : Event) (evs : list Event) :
  decoded_frames (e :: evs) = decoded_frames [e] ++ decoded_frames evs.
Proof.
  destruct e as [imu|msg ans]; cbn [decoded_frames]; [reflexivity|].
  destruct (toCvCopy_MONO8 msg); reflexivity.
Qed.

Lemma gyro_calls_forwarded (evs : list Event) (s : RosInterface) :
  gyro_calls (run evs s).2
  = gyro_calls (map (forward_gyro (R_cam_imu_ s)) (concat (drains evs s))).
Proof.
  revert s. induction evs as [|e evs IH]; intros s; [reflexivity|].
  rewrite run_cons_calls, gyro_calls_app, IH. cbn [drains concat].
  rewrite map_app, gyro_calls_app.
  destruct (step_calls e s) as [-> _].
  destruct (forward_gyro_calls (R_cam_imu_ s) (drained e s)) as [-> _].
  pose proof (step_configuration e s) as Hc. unfold configuration in Hc.
  injection Hc as _ _ _ _ _ _ _ HR _ _ _ _ _ _ _ _.
  rewrite HR. reflexivity.
Qed.

(** X10: over any run, the gyro measurements handed to the tracker, in the
    order of the calls, are the readings that the successive image arrivals
    took out of the buffer, in that order, each turned by the transpose of
    the [R_cam_imu_] of the start: with rows [(r00, r01, r02)],
    [(r10, r11, r12)], [(r20, r21, r22)] of that matrix and angular velocity
    [(v0, v1, v2)] of the reading, component [i] of the measurement is
    [r0i * v0 + r1i * v1 + r2i * v2]. *)
Theorem gyro_calls_of_run (evs : list Event) (s : RosInterface) :
  let '((r00, r01, r02), (r10, r11, r12), (r20, r21, r22)) := R_cam_imu_ s in
  gyro_calls (run evs s).2
  = map (fun r =>
           let '(v0, v1, v2) := omega r in
           (fadd (fadd (fmul r00 v0) (fmul r10 v1)) (fmul r20 v2),
            fadd (fadd (fmul r01 v0) (fmul r11 v1)) (fmul r21 v2),
            fadd (fadd (fmul r02 v0) (fmul r12 v1)) (fmul r22 v2)))
      (concat (drains evs s)).
Proof.
  rewrite gyro_calls_forwarded.
  destruct (forward_gyro_calls (R_cam_imu_ s) (concat (drains evs s))) as [-> _].
  destruct (R_cam_imu_ s)
    as [[[[r00 r01] r02] [[r10 r11] r12]] [[r20 r21] r22]].
  apply map_ext. intros r. cbn.
  destruct (omega r) as [[v0 v1] v2]. reflexivity.
Qed.

(** X11: over any run, the frames handed to the tracker by
    [set_current_image], in the order of the calls, are the images that
    decode, in arrival order, each once and with the seconds of its own
    stamp; an image that does not decode is never handed over. *)
Theorem frames_of_run (evs : list Event) (s : RosInterface) :
  frame_calls (run evs s).2 = decoded_frames evs.
Proof.
  revert s. induction evs as [|e evs IH]; intros s; [reflexivity|].
  rewrite run_cons_calls, frame_calls_app, IH, (decoded_frames_cons e evs).
  destruct (step_calls e s) as [_ ->]. reflexivity.
Qed.

Lemma buffer_suffix_steady (evs : list Event) (s : RosInterface) :
  is_first_imu_ s = false ->
  imu_queue_ (run evs s).1
  `suffix_of`
  imu_queue_ s
  ++ map (fun imu => (toSec (imu_stamp imu),
                      current_imu imu (toSec (imu_stamp imu)) (prev_imu_time_ s)))
       (imu_messages evs).
Proof.
  revert s. induction evs as [|e evs IH]; intros s Hf.
  - cbn. rewrite app_nil_r. reflexivity.
  - rewrite run_cons_state. destruct e as [imu|msg ans]; cbn [step fst imu_messages].
    + destruct (imuCallback_steady imu s Hf) as (Hq & Hp & Hf').
      specialize (IH _ Hf'). rewrite Hq, Hp, <- app_assoc in IH. exact IH.
    + destruct (imageCallback_conserves msg ans s) as (_ & Hp & Hf').
      specialize (IH (imageCallback msg ans s).1).
      rewrite Hf', Hp in IH. specialize (IH Hf).
      etransitivity; [exact IH|].
      apply suffix_app. unfold imageCallback.
      destruct (toCvCopy_MONO8 msg) as [what|img]; [reflexivity|].
      cbn [fst imu_queue_ set_imu_queue]. apply suffix_drop.
Qed.

Lemma dT_current_imu (imu : ImuMsg) (cur prev : double) :
  dT (current_imu imu cur prev) = float_of_double (dsub cur prev).
Proof.
  unfold current_imu.
  destruct (linear_acceleration imu) as [[ax ay] az].
  destruct (angular_velocity imu) as [[wx wy] wz]. reflexivity.
Qed.

Lemma buffer_suffix_start (evs : list Event) (s : RosInterface) :
  is_first_imu_ s = true ->
  imu_queue_ s = [] ->
  imu_queue_ (run evs s).1 `suffix_of` stamped_after_first evs.
Proof.
  revert s. induction evs as [|e evs IH]; intros s Hf Hq.
  - cbn. rewrite Hq. reflexivity.
  - rewrite run_cons_state. unfold stamped_after_first.
    destruct e as [imu|msg ans]; cbn [step fst imu_messages].
    + destruct (imuCallback_first imu s Hf) as (Hq' & Hp & Hf').
      pose proof (buffer_suffix_steady evs _ Hf') as Hs.
      rewrite Hq', Hq, Hp in Hs. exact Hs.
    + fold (stamped_after_first evs).
      destruct (imageCallback_conserves msg ans s) as (Hq' & _ & Hf').
      rewrite Hq in Hq'. cbn [map] in Hq'.
      apply app_eq_nil in Hq' as [_ Hq']. apply map_eq_nil in Hq'.
      apply IH; [rewrite Hf'; exact Hf|exact Hq'].
Qed.

(** X12: from an object that waits for its first inertial message with an
    empty buffer, after any run the buffer is a final part of the entries of
    all inertial messages but the first, in arrival order; each entry
    carries the seconds of the stamp of its message, and its [dT] is the
    difference between those and the seconds of the stamp of the first
    message of the run, narrowed to float. *)
Theorem buffer_of_run (evs : list Event) (s : RosInterface) :
  is_first_imu_ s = true ->
  imu_queue_ s = [] ->
  imu_queue_ (run evs s).1 `suffix_of` stamped_after_first evs /\
  forall first t r,
    head (imu_messages evs) = Some first ->
    (t, r) ∈ imu_queue_ (run evs s).1 ->
    dT r = float_of_double (dsub t (toSec (imu_stamp first))).
Proof.
  intros Hf Hq.
  pose proof (buffer_suffix_start evs s Hf Hq) as Hsuf.
  split; [exact Hsuf|].
  intros first t r Hfirst Hin.
  destruct Hsuf as [k Hk]. unfold stamped_after_first in Hk.
  destruct (imu_messages evs) as [|m later]; [discriminate Hfirst|].
  injection Hfirst as ->.
  assert ((t, r) ∈ k ++ imu_queue_ (run evs s).1) as Hin'
    by (apply elem_of_app; right; exact Hin).
  rewrite <- Hk in Hin'. apply list_elem_of_In, in_map_iff in Hin'.
  destruct Hin' as (imu & Heq & _). injection Heq as <- <-.
  apply dT_current_imu.
Qed.


(** X14: for every buffer, in whatever order its stamps are, and every
    cutoff [t]: the buffer is the part taken out followed by the part that
    stays; no stamp of the part taken out exceeds [t]; the part that stays
    is empty or begins with a stamp that exceeds [t]; and taking out again
    with the same cutoff takes nothing and leaves the buffer as it is. *)
Theorem drain_any_buffer (q : list (double * imuReading)) (t : double) :
  q = take (frame_end q t) q ++ erase_to_frame_end q t /\
  imu_since_prev_img q t = map snd (take (frame_end q t) q) /\
  Forall (fun x => dgt x.1 t = false) (take (frame_end q t) q) /\
  match erase_to_frame_end q t with
  | [] => True
  | x :: _ => dgt x.1 t = true
  end /\
  imu_since_prev_img (erase_to_frame_end q t) t = [] /\
  erase_to_frame_end (erase_to_frame_end q t) t = erase_to_frame_end q t.
Proof.
  pose proof (find_if_true (fun x => dgt (fst x) t) q) as Hhd.
  fold (frame_end q t) in Hhd. fold (erase_to_frame_end q t) in Hhd.
  split; [unfold erase_to_frame_end; symmetry; apply take_drop|].
  split; [reflexivity|].
  split; [apply (find_if_false (fun x => dgt (fst x) t) q)|].
  split; [exact Hhd|].
  assert (frame_end (erase_to_frame_end q t) t = 0%nat) as Hz.
  { destruct (erase_to_frame_end q t) as [|x r]; [reflexivity|].
    unfold frame_end. cbn [find_if]. cbn [fst] in Hhd. rewrite Hhd. reflexivity. }
  split; [unfold imu_since_prev_img; rewrite Hz; reflexivity|].
  remember (erase_to_frame_end q t) as rest eqn:Erest.
  unfold erase_to_frame_end. rewrite Hz. reflexivity.
Qed.

Lemma forward_gyro_elem (R : Matrix3) (readings : list imuReading) (c : Call) :
  c ∈ map (forward_gyro R) readings -> exists g, c = add_gyro_reading g.
Proof.
  induction readings as [|r readings IH]; cbn [map]; intros Hc; [inversion Hc|].
  apply elem_of_cons in Hc as [->|Hc]; [unfold forward_gyro; eauto|auto].
Qed.

(** X15: the image callback asks the tracker for the track image and
    publishes it exactly when the image decodes and the track image has a
    subscriber; what it publishes is then the image the tracker returned,
    under the frame "cam0" and the stamp of the image message. *)
Theorem track_image_published (msg : ImageMsg) (ans : Answers) (s : RosInterface)
    (f : string) (st : Time) (i : Image) :
  (track_image_publish f st i ∈ (imageCallback msg ans s).2
   <-> (exists img, toCvCopy_MONO8 msg = inr img) /\
       (0 < NumSubscribers ans)%Z /\
       f = "cam0" /\ st = image_stamp msg /\ i = track_image ans) /\
  (get_track_image ∈ (imageCallback msg ans s).2
   <-> (exists img, toCvCopy_MONO8 msg = inr img) /\ (0 < NumSubscribers ans)%Z).
Proof.
  unfold imageCallback. destruct (toCvCopy_MONO8 msg) as [what|img]; cbn [snd].
  - split; (split; [intros Hc|intros [[img Himg] _]; discriminate Himg]);
      apply elem_of_cons in Hc as [Hc|Hc]; [discriminate Hc|inversion Hc
                                           |discriminate Hc|inversion Hc].
  - unfold publish_extra. rewrite !elem_of_app.
    destruct (Z.ltb_spec 0 (NumSubscribers ans)) as [Hn|Hn].
    + split; (split; [intros [Hc|[Hc|Hc]]|]).
      * apply forward_gyro_elem in Hc as [g Hg]. discriminate Hg.
      * rewrite !elem_of_cons in Hc.
        destruct Hc as [Hc|[Hc|[Hc|[Hc|[Hc|Hc]]]]]; try discriminate Hc. inversion Hc.
      * rewrite !elem_of_cons in Hc. destruct Hc as [Hc|[Hc|Hc]];
          [discriminate Hc| |inversion Hc].
        injection Hc as -> -> ->. split; [eauto|]. repeat split. exact Hn.
      * intros (_ & _ & -> & -> & ->). right. right.
        rewrite !elem_of_cons. right. left. reflexivity.
      * apply forward_gyro_elem in Hc as [g Hg]. discriminate Hg.
      * rewrite !elem_of_cons in Hc.
        destruct Hc as [Hc|[Hc|[Hc|[Hc|[Hc|Hc]]]]]; try discriminate Hc. inversion Hc.
      * split; [eauto|exact Hn].
      * intros _. right. right. rewrite !elem_of_cons. left. reflexivity.
    + split; (split; [intros [Hc|[Hc|Hc]]|intros Hc; exfalso;
                                          destruct Hc as (_ & Hc); lia]).
      * apply forward_gyro_elem in Hc as [g Hg]. discriminate Hg.
      * rewrite !elem_of_cons in Hc.
        destruct Hc as [Hc|[Hc|[Hc|[Hc|[Hc|Hc]]]]]; try discriminate Hc. inversion Hc.
      * inversion Hc.
      * apply forward_gyro_elem in Hc as [g Hg]. discriminate Hg.
      * rewrite !elem_of_cons in Hc.
        destruct Hc as [Hc|[Hc|[Hc|[Hc|[Hc|Hc]]]]]; try discriminate Hc. inversion Hc.
      * inversion Hc.
Qed.
End Run_properties.

Section Extras_exact.
#[local] Existing Instance Exact.floats.
#[local] Existing Instance Exact.external.
Local Open Scope string_scope.
Local Open Scope list_scope.
Local Open Scope Q_scope.

Lemma loaded_bare_ok :
  load_parameters Exact.T_blank (set_nh_calibrating Exact.bare true Exact.blank)
  = inr (Exact.loaded_bare, Exact.loaded_bare_calls).
Proof. apply succeeded_inr. vm_compute. reflexivity. Qed.

Lemma loaded_five_ok :
  load_parameters Exact.T_blank (set_nh_calibrating Exact.five_coeffs true Exact.blank)
  = inr (Exact.loaded_five, Exact.loaded_five_calls).
Proof. apply succeeded_inr. vm_compute. reflexivity. Qed.

Lemma read_T_cam_imu_entries_witness :
  exists rows,
    Exact.T_cam_imu = TypeArray rows /\
    (forall i j, Exact.parsed i j
                 = from_option float_of_double (Exact.T_blank i j) (entry rows i j)) /\
    (forall i j d, entry rows i j = Some d -> Exact.parsed i j = float_of_double d).
Proof.
  apply (read_T_cam_imu_entries Exact.T_blank Exact.parsed Exact.T_cam_imu).
  vm_compute. reflexivity.
Defined.

Lemma extrinsics_stored_witness :
  let s := Exact.constructing in
  let s' := Exact.loaded in
  exists rows,
    nh_ s !! (kalibr_camera (nh_ s) +:+ "/T_cam_imu") = Some (TypeArray rows) /\
    (forall i j, (i < 3)%nat -> (j < 3)%nat ->
       Mat_at (R_cam_imu_ s') i j
       = from_option float_of_double (Exact.T_blank i j) (entry rows i j)) /\
    (forall i, (i < 3)%nat ->
       Vector3_at (p_cam_imu_ s') i
       = from_option float_of_double (Exact.T_blank i 3%nat) (entry rows i 3)) /\
    q_CI (camera_ s') = Quaternion_of_Matrix3 (R_cam_imu_ s') /\
    p_C_I (camera_ s') = p_cam_imu_ s'.
Proof.
  apply (extrinsics_stored Exact.T_blank Exact.constructing Exact.loaded
           Exact.loaded_calls).
  exact loaded_ok.
Defined.

Lemma missing_extrinsics_abort_witness :
  (exists e, load_parameters Exact.T_blank (set_nh_calibrating ∅ true Exact.blank)
             = inl e) /\
  (exists e, RosInterface_new ∅ Exact.T_blank Exact.blank = inl e) /\
  (length (intrinsics (∅ : NodeHandle)) >= 4 ->
   length (distortion_coeffs (∅ : NodeHandle)) >= 4 ->
   RosInterface_new ∅ Exact.T_blank Exact.blank = inl ROS_ASSERT_failed)%nat.
Proof.
  apply (missing_extrinsics_abort ∅ Exact.T_blank Exact.blank).
  vm_compute. reflexivity.
Defined.

Lemma dist_coeffs_first_four_witness :
  let dc := distortion_coeffs (nh_ (set_nh_calibrating Exact.five_coeffs true Exact.blank)) in
  (4 <= length dc)%nat /\
  dist_coeffs_ Exact.loaded_five = take 4 dc ++ zeros (length dc - 4) /\
  length (dist_coeffs_ Exact.loaded_five) = length dc.
Proof.
  apply (dist_coeffs_first_four Exact.T_blank
           (set_nh_calibrating Exact.five_coeffs true Exact.blank)
           Exact.loaded_five Exact.loaded_five_calls).
  exact loaded_five_ok.
Defined.

Lemma missing_intrinsics_zero_witness :
  let s := set_nh_calibrating Exact.bare true Exact.blank in
  let s' := Exact.loaded_bare in
  let cs := Exact.loaded_bare_calls in
  let o := float_of_int 0 in
  let i := float_of_int 1 in
  K_ s' = ((o, o, o), (o, o, o), (o, o, i)) /\
  (c_u (camera_ s') = o /\ c_v (camera_ s') = o /\
   f_u (camera_ s') = o /\ f_v (camera_ s') = o) /\
  u_var_prime (noise_params_ s')
  = fpow2 (fdiv (param_float (nh_ s) "feature_covariance" (float_of_int 7)) o) /\
  v_var_prime (noise_params_ s')
  = fpow2 (fdiv (param_float (nh_ s) "feature_covariance" (float_of_int 7)) o) /\
  max_gn_cost_norm (msckf_params_ s')
  = fpow2 (fdiv (param_float (nh_ s) "max_gn_cost_norm" (float_of_int 11)) o) /\
  (exists d0 d1 d2 d3 T,
     cs = [ROS_INFO_STREAM [Ls "Loaded "; Ls (kalibr_camera (nh_ s))];
           ROS_INFO_STREAM [Ls "-Intrinsics "; Lf o; Ls ", "; Lf o;
                            Ls ", "; Lf o; Ls ", "; Lf o];
           ROS_INFO_STREAM [Ls "-Distortion "; Lf d0; Ls ", "; Lf d1; Ls ", "; Lf d2;
                            Ls ", "; Lf d3];
           ROS_INFO_STREAM [Ls "-Camera topic "; Ls (subscribe_topic_ s')];
           ROS_INFO_STREAM [Ls "-T_cam_imu "; Lm T]]) /\
  (forall what, ROS_ERROR what ∉ cs).
Proof.
  apply (missing_intrinsics_zero Exact.T_blank
           (set_nh_calibrating Exact.bare true Exact.blank)
           Exact.loaded_bare Exact.loaded_bare_calls).
  - vm_compute. reflexivity.
  - exact loaded_bare_ok.
Defined.

Lemma covariance_diagonals_witness :
  let nh := nh_ Exact.constructing in
  let s' := Exact.loaded in
  let var key d := param_float nh key (float_lit d) in
  initial_imu_covar (noise_params_ s')
  = replicate 3 (var "imu_covars/q_var_init" 1e-5)
    ++ replicate 3 (var "imu_covars/bg_var_init" 1e-2)
    ++ replicate 3 (var "imu_covars/v_var_init" 1e-2)
    ++ replicate 3 (var "imu_covars/ba_var_init" 1e-2)
    ++ replicate 3 (var "imu_covars/p_var_init" 1e-12) /\
  Q_imu (noise_params_ s')
  = replicate 3 (var "imu_vars/w_var" 1e-5)
    ++ replicate 3 (var "imu_vars/dbg_var" 3.6733e-5)
    ++ replicate 3 (var "imu_vars/a_var" 1e-3)
    ++ replicate 3 (var "imu_vars/dba_var" 7e-4) /\
  length (initial_imu_covar (noise_params_ s')) = 15%nat /\
  length (Q_imu (noise_params_ s')) = 12%nat /\
  (forall key d, nh !! key = None -> var key d = float_lit d).
Proof.
  apply (covariance_diagonals Exact.T_blank Exact.constructing Exact.loaded
           Exact.loaded_calls).
  exact loaded_ok.
Defined.

Lemma constructor_leaves_members_witness :
  let s := Exact.constructed in
  nh_ s = Exact.calibration /\
  is_calibrating_imu_ s = true /\
  is_first_imu_ s = is_first_imu_ Exact.blank /\
  prev_imu_time_ s = prev_imu_time_ Exact.blank /\
  imu_queue_ s = imu_queue_ Exact.blank /\
  init_imu_state_ s = init_imu_state_ Exact.blank.
Proof.
  apply (constructor_leaves_members Exact.calibration Exact.T_blank Exact.blank
           Exact.constructed Exact.constructed_calls).
  exact constructed_ok.
Defined.

Lemma gyro_calls_of_run_witness :
  R_cam_imu_ Exact.constructed = (((0, -1, 0), (1, 0, 0), (0, 0, 1)) : Matrix3) /\
  map omega (concat (drains Exact.stream Exact.constructed))
  = ([(2, 0, 0); (3, 0, 0)] : list Vector3) /\
  gyro_calls (run Exact.stream Exact.constructed).2
  = ([(0, -2, 0); (0, -3, 0)] : list Vector3).
Proof.
  split; [vm_compute; reflexivity|]. split; [vm_compute; reflexivity|].
  pose proof (gyro_calls_of_run Exact.stream Exact.constructed) as Hrun.
  assert (R_cam_imu_ Exact.constructed
          = (((0, -1, 0), (1, 0, 0), (0, 0, 1)) : Matrix3)) as HR
    by (vm_compute; reflexivity).
  rewrite HR in Hrun. rewrite Hrun. vm_compute. reflexivity.
Defined.

Lemma buffer_of_run_witness :
  imu_queue_ (run Exact.stream Exact.blank).1
  `suffix_of` stamped_after_first Exact.stream /\
  forall first t r,
    head (imu_messages Exact.stream) = Some first ->
    (t, r) ∈ imu_queue_ (run Exact.stream Exact.blank).1 ->
    dT r = float_of_double (dsub t (toSec (imu_stamp first))).
Proof.
  apply (buffer_of_run Exact.stream Exact.blank); reflexivity.
Defined.

End Extras_exact.

(** ** Start-up and the estimator *)

Section Startup.
Context `{External}.
Local Open Scope string_scope.
Local Open Scope list_scope.

(** C8: a constructor that succeeds makes no [initialize] call on the
    estimator.  It leaves the three bundles derived from the store: the
    camera holds the four intrinsics read, the quaternion of the upper left
    3x3 block of the extrinsic transform and the upper three rows of its
    last column; the noise parameters hold the two covariance diagonals and
    the two pixel variances; the filter parameters hold the scaled cost norm
    and the thresholds, each read under its name or at its default.
    [setup_msckf] on that object makes exactly one [initialize] call, and
    passes these three bundles together with the initial state, a member
    that the constructor leaves as it found it. *)
Theorem msckf_initialized_by_setup_msckf (nh : NodeHandle) (T_cam_imu_0 : Matrix4)
    (s0 s : RosInterface) (cs : list Call) :
  RosInterface_new nh T_cam_imu_0 s0 = inr (s, cs) ->
  count_initialize cs = 0%nat /\
  exists i0 i1 i2 i3 more rows,
    intrinsics nh = i0 :: i1 :: i2 :: i3 :: more /\
    nh !! (kalibr_camera nh +:+ "/T_cam_imu") = Some (TypeArray rows) /\
    let coef (i j : nat) :=
      from_option float_of_double (T_cam_imu_0 i j) (entry rows i j) in
    let R : Matrix3 :=
      ((coef 0 0, coef 0 1, coef 0 2),
       (coef 1 0, coef 1 1, coef 1 2),
       (coef 2 0, coef 2 1, coef 2 2))%nat in
    let p : Vector3 := (coef 0 3, coef 1 3, coef 2 3)%nat in
    let var key (d : Q) := param_float nh key (float_lit d) in
    let feature_cov := param_float nh "feature_covariance" (float_of_int 7) in
    let camera :=
      {| c_u := i0; c_v := i1; f_u := i2; f_v := i3;
         q_CI := Quaternion_of_Matrix3 R; p_C_I := p |} in
    let noise :=
      {| initial_imu_covar :=
           replicate 3 (var "imu_covars/q_var_init" 1e-5%Q)
           ++ replicate 3 (var "imu_covars/bg_var_init" 1e-2%Q)
           ++ replicate 3 (var "imu_covars/v_var_init" 1e-2%Q)
           ++ replicate 3 (var "imu_covars/ba_var_init" 1e-2%Q)
           ++ replicate 3 (var "imu_covars/p_var_init" 1e-12%Q);
         Q_imu :=
           replicate 3 (var "imu_vars/w_var" 1e-5%Q)
           ++ replicate 3 (var "imu_vars/dbg_var" 3.6733e-5%Q)
           ++ replicate 3 (var "imu_vars/a_var" 1e-3%Q)
           ++ replicate 3 (var "imu_vars/dba_var" 7e-4%Q);
         u_var_prime := fpow2 (fdiv feature_cov (f_u camera));
         v_var_prime := fpow2 (fdiv feature_cov (f_v camera)) |} in
    let params :=
      {| max_gn_cost_norm :=
           fpow2 (fdiv (param_float nh "max_gn_cost_norm" (float_of_int 11))
                    (f_u camera));
         translation_threshold := var "translation_threshold" 0.05%Q;
         min_rcond := var "min_rcond" 3e-12%Q;
         redundancy_angle_thresh := var "keyframe_transl_dist" 0.005%Q;
         redundancy_distance_thresh := var "keyframe_rot_dist" 0.05%Q;
         max_track_length := param_int nh "max_track_length" 1000;
         min_track_length := param_int nh "min_track_length" 3;
         max_cam_states := param_int nh "max_cam_states" 20 |} in
    camera_ s = camera /\
    noise_params_ s = noise /\
    msckf_params_ s = params /\
    setup_msckf s
    = [MSCKF_new; MSCKF_initialize camera noise params (init_imu_state_ s0)] /\
    count_initialize (setup_msckf s) = 1%nat.
Proof.
  intros Hn.
  destruct (RosInterface_new_calls _ _ _ _ _ Hn) as (loaded & Hl & ->).
  destruct (load_parameters_stored _ _ _ _ Hl)
    as (i0 & i1 & i2 & i3 & more & T & Hi & _ & _ & Hcam & Hu & Hv & Hp
        & _ & _ & _ & Hst & Hcount).
  destruct (load_parameters_rest _ _ _ _ Hl)
    as (d0 & d1 & d2 & d3 & dmore & T' & _ & HT & _ & _ & Hq & Hpc & _ & Hic & HQ & _).
  cbn [nh_ set_nh_calibrating init_imu_state_] in *.
  destruct (read_T_cam_imu_at _ _ _ HT) as (rows & Hv' & Hentries).
  split; [rewrite count_initialize_app, Hcount; reflexivity|].
  exists i0, i1, i2, i3, more, rows.
  split; [exact Hi|].
  split.
  { unfold getParam_xml in Hv'.
    destruct (nh !! _) as [v|]; cbn in Hv'; [rewrite Hv'; reflexivity|discriminate Hv']. }
  cbv zeta.
  assert (camera_ s
          = {| c_u := i0; c_v := i1; f_u := i2; f_v := i3;
               q_CI := Quaternion_of_Matrix3
                         (from_option float_of_double (T_cam_imu_0 0 0) (entry rows 0 0),
                          from_option float_of_double (T_cam_imu_0 0 1) (entry rows 0 1),
                          from_option float_of_double (T_cam_imu_0 0 2) (entry rows 0 2),
                          (from_option float_of_double (T_cam_imu_0 1 0) (entry rows 1 0),
                           from_option float_of_double (T_cam_imu_0 1 1) (entry rows 1 1),
                           from_option float_of_double (T_cam_imu_0 1 2) (entry rows 1 2)),
                          (from_option float_of_double (T_cam_imu_0 2 0) (entry rows 2 0),
                           from_option float_of_double (T_cam_imu_0 2 1) (entry rows 2 1),
                           from_option float_of_double (T_cam_imu_0 2 2) (entry rows 2 2)))%nat;
               p_C_I :=
                 (from_option float_of_double (T_cam_imu_0 0 3) (entry rows 0 3),
                  from_option float_of_double (T_cam_imu_0 1 3) (entry rows 1 3),
                  from_option float_of_double (T_cam_imu_0 2 3) (entry rows 2 3))%nat |})
    as Hcamera.
  { rewrite Hcam in Hq, Hpc. cbn [q_CI p_C_I] in Hq, Hpc.
    rewrite Hcam, Hq, Hpc. unfold block33, block31.
    rewrite !Hentries. reflexivity. }
  assert (noise_params_ s
          = {| initial_imu_covar := initial_imu_covar (noise_params_ s);
               Q_imu := Q_imu (noise_params_ s);
               u_var_prime := u_var_prime (noise_params_ s);
               v_var_prime := v_var_prime (noise_params_ s) |}) as Hnoise
    by (destruct (noise_params_ s); reflexivity).
  rewrite Hic, HQ, Hu, Hv in Hnoise.
  split; [exact Hcamera|]. split; [exact Hnoise|]. split; [exact Hp|].
  split; [|reflexivity].
  unfold setup_msckf. rewrite Hcamera, Hnoise, Hp, Hst. reflexivity.
Qed.
End Startup.

Section Startup_exact.
#[local] Existing Instance Exact.floats.
#[local] Existing Instance Exact.external.
Local Open Scope string_scope.
Local Open Scope list_scope.
Local Open Scope Q_scope.

Lemma msckf_initialized_by_setup_msckf_witness :
  let nh := Exact.calibration in
  let s := Exact.constructed in
  (camera_ s
   = {| c_u := 300; c_v := 300; f_u := 320; f_v := 240;
        q_CI := ((0, -1, 0), (1, 0, 0), (0, 0, 1));
        p_C_I := (1 # 10, 2 # 10, 3 # 10) |} /\
   u_var_prime (noise_params_ s) == (7 / 320) ^ 2 /\
   translation_threshold (msckf_params_ s) = 0.05) /\
  count_initialize Exact.constructed_calls = 0%nat /\
  exists i0 i1 i2 i3 more rows,
    intrinsics nh = i0 :: i1 :: i2 :: i3 :: more /\
    nh !! (kalibr_camera nh +:+ "/T_cam_imu") = Some (TypeArray rows) /\
    let coef (i j : nat) :=
      from_option float_of_double (Exact.T_blank i j) (entry rows i j) in
    let R : Matrix3 :=
      ((coef 0 0, coef 0 1, coef 0 2),
       (coef 1 0, coef 1 1, coef 1 2),
       (coef 2 0, coef 2 1, coef 2 2))%nat in
    let p : Vector3 := (coef 0 3, coef 1 3, coef 2 3)%nat in
    let var key (d : Q) := param_float nh key (float_lit d) in
    let feature_cov := param_float nh "feature_covariance" (float_of_int 7) in
    let camera :=
      {| c_u := i0; c_v := i1; f_u := i2; f_v := i3;
         q_CI := Quaternion_of_Matrix3 R; p_C_I := p |} in
    let noise :=
      {| initial_imu_covar :=
           replicate 3 (var "imu_covars/q_var_init" 1e-5)
           ++ replicate 3 (var "imu_covars/bg_var_init" 1e-2)
           ++ replicate 3 (var "imu_covars/v_var_init" 1e-2)
           ++ replicate 3 (var "imu_covars/ba_var_init" 1e-2)
           ++ replicate 3 (var "imu_covars/p_var_init" 1e-12);
         Q_imu :=
           replicate 3 (var "imu_vars/w_var" 1e-5)
           ++ replicate 3 (var "imu_vars/dbg_var" 3.6733e-5)
           ++ replicate 3 (var "imu_vars/a_var" 1e-3)
           ++ replicate 3 (var "imu_vars/dba_var" 7e-4);
         u_var_prime := fpow2 (fdiv feature_cov (f_u camera));
         v_var_prime := fpow2 (fdiv feature_cov (f_v camera)) |} in
    let params :=
      {| max_gn_cost_norm :=
           fpow2 (fdiv (param_float nh "max_gn_cost_norm" (float_of_int 11))
                    (f_u camera));
         translation_threshold := var "translation_threshold" 0.05;
         min_rcond := var "min_rcond" 3e-12;
         redundancy_angle_thresh := var "keyframe_transl_dist" 0.005;
         redundancy_distance_thresh := var "keyframe_rot_dist" 0.05;
         max_track_length := param_int nh "max_track_length" 1000;
         min_track_length := param_int nh "min_track_length" 3;
         max_cam_states := param_int nh "max_cam_states" 20 |} in
    camera_ s = camera /\
    noise_params_ s = noise /\
    msckf_params_ s = params /\
    setup_msckf s
    = [MSCKF_new; MSCKF_initialize camera noise params (init_imu_state_ Exact.blank)] /\
    count_initialize (setup_msckf s) = 1%nat.
Proof.
  split; [repeat split; vm_compute; reflexivity|].
  apply (msckf_initialized_by_setup_msckf Exact.calibration Exact.T_blank Exact.blank
           Exact.constructed Exact.constructed_calls).
  exact constructed_ok.
Defined.
End Startup_exact.
